(** * SAMD_SafeFlashStorage: raw flash driver and typed record store

    A shallow embedding of [src/SAMD_SafeFlashStorage.h] and
    [src/SAMD_SafeFlashStorage.cpp].

    Conventions.
    - The target is a 32-bit ARM core: [uintptr_t], [uint32_t] and [size_t]
      are 32 bits wide, [int] is 32 bits, [char] is unsigned, memory is
      little-endian.  Unsigned integers are [Z] with the wrap-around written
      out ([u16], [u32]).
    - Bytes are [Init.Byte.byte] with coqutil's [byte.unsigned]/[byte.of_Z];
      multi-byte integers are assembled with [le_combine]/[le_split].
    - Pointers are [Z]; pointer arithmetic is plain addition and the value is
      reduced to 32 bits where the code casts to [uintptr_t] or drives the
      address on the bus.
    - The memory controller (NVMCTRL) is a state record threaded through the
      driver by a small state monad whose result is [None] where the C++
      code has no defined result. *)

From Stdlib Require Import String Ascii ZArith Bool Lia List.
From coqutil Require Import Byte Word.LittleEndianList Z.bitblast.
Import ListNotations.
Local Open Scope Z_scope.

(** ** Fixed-width arithmetic *)

Definition u16 (x : Z) : Z := x mod 2 ^ 16.
Definition u32 (x : Z) : Z := x mod 2 ^ 32.
Definition UINTPTR_MAX : Z := 2 ^ 32 - 1.
Definition NULL : Z := 0.

(** ** Compile-time identity hash ([namespace FlashStorageInternal]) *)

Module FlashStorageInternal.

(** [hash] and [value] are [uint16_t]; the expression is evaluated in
    [int] after promotion and the result converted back to [uint16_t]. *)
Definition hash_combine (hash value : Z) : Z :=
  u16 (Z.lxor hash (value + 0x9e37 + Z.shiftl hash 6 + Z.shiftr hash 2)).

(** The recursion over [index] stops at the terminating NUL character. *)
Fixpoint hash_string (str : string) (hash : Z) : Z :=
  match str with
  | EmptyString => hash
  | String c rest =>
      if Ascii.eqb c zero then hash
      else hash_string rest (hash_combine hash (Z.of_N (N_of_ascii c)))
  end.

Definition hash_seed : Z := 0x5A5A.

Definition hash_variable (name : string) (size : Z) : Z :=
  hash_combine (hash_string name hash_seed) (u16 size).

End FlashStorageInternal.

(** ** The memory controller

    [PARAM] is the read-only descriptor register; [family] is the build
    target selected by [#if defined(__SAMD51__)]. *)

Inductive family := SAMD21 | SAMD51.

Record nvm_param := {
  target : family;
  PSZ : Z;     (* PARAM.bit.PSZ, a 3-bit field *)
  NVMP : Z     (* PARAM.bit.NVMP, a 16-bit field *)
}.

Inductive command :=
| CMD_PBC                 (* page buffer clear *)
| CMD_WP                  (* write page *)
| CMD_ER (row : Z).       (* erase row / block at this byte address *)

(** Controller state: the flash array, the page buffer (the byte stores
    latched since the last clear, each with its bus address), the address
    register and the commands executed so far, oldest first. *)
Record nvm_state := {
  mem : Z -> byte;
  page_buffer : list (Z * byte);
  ADDR : Z;
  trace : list command
}.

Definition pageSizes : list Z := [8; 16; 32; 64; 128; 256; 512; 1024].

(** ** The driver object *)

Record FlashClass := {
  PAGE_SIZE : Z;
  ROW_SIZE : Z;
  flash_address : Z;
  flash_size : Z
}.

(** A state monad over the controller; [None] is "no defined result"
    (division by a zero row size, or a loop that does not end). *)
Definition M (A : Type) : Type := nvm_state -> option (A * nvm_state).

Definition ret {A} (a : A) : M A := fun st => Some (a, st).

Definition bind {A B} (m : M A) (k : A -> M B) : M B :=
  fun st => match m st with
            | Some (a, st') => k a st'
            | None => None
            end.

Definition undefined {A} : M A := fun _ => None.

Notation "x <- m ;; k" := (bind m (fun x => k))
  (at level 61, m at next level, right associativity).
Notation "m ;;; k" := (bind m (fun _ => k))
  (at level 61, right associativity).

(** *** What the controller does

    Programming can only clear bits: a committed byte is the AND of the
    old content and the latched byte.  Erasing sets a whole row to 0xFF. *)

Definition program_byte (m : Z -> byte) (a : Z) (b : byte) : Z -> byte :=
  fun x => if x =? a then byte.and (m x) b else m x.

Definition commit (buf : list (Z * byte)) (m : Z -> byte) : Z -> byte :=
  fold_left (fun m' e => program_byte m' (fst e) (snd e)) buf m.

Definition erased : byte := Byte.xff.

Definition erase_range (m : Z -> byte) (row len : Z) : Z -> byte :=
  fun x => if (row <=? x) && (x <? row + len) then erased else m x.

Definition nvm_PBC : M unit := fun st =>
  Some (tt, {| mem := mem st; page_buffer := [];
               ADDR := ADDR st; trace := trace st ++ [CMD_PBC] |}).

Definition nvm_WP : M unit := fun st =>
  Some (tt, {| mem := commit (page_buffer st) (mem st); page_buffer := [];
               ADDR := ADDR st; trace := trace st ++ [CMD_WP] |}).

(** [*dst_addr = w]: a 32-bit store into the flash address space latches
    the four bytes of [w] in the page buffer.  The store is given this
    meaning at every address; on the target it is a word store and wants
    [dst_addr] word-aligned, so what is stated below about a [write] that
    goes through is meant for a word-aligned [flash_ptr]. *)
Definition nvm_store32 (addr w : Z) : M unit := fun st =>
  let bs := le_split 4 w in
  let a := u32 addr in
  Some (tt, {| mem := mem st;
               page_buffer := page_buffer st ++
                 combine [a; u32 (a + 1); u32 (a + 2); u32 (a + 3)] bs;
               ADDR := ADDR st; trace := trace st |}).

Definition nvm_set_ADDR (v : Z) : M unit := fun st =>
  Some (tt, {| mem := mem st; page_buffer := page_buffer st;
               ADDR := v; trace := trace st |}).

(** Byte address denoted by the address register: SAMD21 counts 16-bit
    words, SAMD51 counts bytes. *)
Definition ADDR_bytes (p : nvm_param) (v : Z) : Z :=
  match target p with SAMD21 => 2 * v | SAMD51 => v end.

(** Page and row geometry as the constructor derives it from [PARAM]:
    [pageSizes[PSZ]], and four pages per row (SAMD21) or
    [PAGE_SIZE * NVMP / 64] (SAMD51). *)
Definition page_size (p : nvm_param) : Z :=
  nth (Z.to_nat (PSZ p mod 8)) pageSizes 0.

Definition row_size (p : nvm_param) : Z :=
  match target p with
  | SAMD51 => u32 (page_size p * (NVMP p mod 2 ^ 16)) / 64
  | SAMD21 => u32 (page_size p * 4)
  end.

(** The erase command clears the row that contains the addressed byte; the
    erase granularity of the simulated part is the row size above. *)
Definition nvm_ER (p : nvm_param) : M unit := fun st =>
  let row := row_size p in
  let base := ADDR_bytes p (ADDR st) / row * row in
  Some (tt, {| mem := erase_range (mem st) base row;
               page_buffer := page_buffer st;
               ADDR := ADDR st; trace := trace st ++ [CMD_ER base] |}).

(** ** [class FlashClass] *)

Definition FlashClass_new (p : nvm_param) (flash_addr size : Z) : FlashClass :=
  {| PAGE_SIZE := page_size p;
     ROW_SIZE := row_size p;
     flash_address := flash_addr;
     flash_size := size |}.

Definition read_unaligned_uint32 (d : Z -> byte) (data : Z) : Z :=
  le_combine [d data; d (data + 1); d (data + 2); d (data + 3)].

(** [memcpy(data, flash_ptr, size)]: the bytes read from the flash array. *)
Definition memcpy_from (m : Z -> byte) (flash_ptr size : Z) : list byte :=
  map (fun i => m (u32 (flash_ptr + Z.of_nat i))) (seq 0 (Z.to_nat size)).

Module FlashClass.
Section Driver.

Variable p : nvm_param.
Variable f : FlashClass.

Definition isWithinBounds (flash_ptr size : Z) : bool :=
  if (flash_size f =? 0) || (flash_address f =? NULL) then true
  else
    let op_start := u32 flash_ptr in
    if op_start >? UINTPTR_MAX - size then false
    else
      let op_end := u32 (op_start + size) in
      let bound_start := u32 (flash_address f) in
      let bound_end := u32 (bound_start + flash_size f) in
      (op_start >=? bound_start) && (op_end <=? bound_end).

(** The [for] loop that fills the page buffer; [n] is the number of
    iterations left before [i] reaches [PAGE_SIZE / 4]. *)
Fixpoint fill_page_buffer (n : nat) (src : Z -> byte)
    (dst_addr src_addr size : Z) : M (Z * Z * Z) :=
  match n with
  | O => ret (dst_addr, src_addr, size)
  | S n' =>
      if size =? 0 then ret (dst_addr, src_addr, size)
      else
        nvm_store32 dst_addr (read_unaligned_uint32 src src_addr) ;;;
        fill_page_buffer n' src (dst_addr + 4) (src_addr + 4) (size - 1)
  end.

(** The [while (size)] loop: clear, fill, commit, once per page. *)
Fixpoint write_pages (fuel : nat) (src : Z -> byte)
    (dst_addr src_addr size : Z) : M unit :=
  if size =? 0 then ret tt
  else
    match fuel with
    | O => undefined
    | S fuel' =>
        nvm_PBC ;;;
        r <- fill_page_buffer (Z.to_nat (PAGE_SIZE f / 4)) src
               dst_addr src_addr size ;;
        nvm_WP ;;;
        write_pages fuel' src (fst (fst r)) (snd (fst r)) (snd r)
    end.

(** [write(flash_ptr, data, size)].  [src i] is the byte at [data + i].
    The controller state above has the flash array, the page buffer, the
    address register and the commands; it has no field for the write-mode
    and cache-control bits that are set before the loop ([CTRLB.MANW] on
    SAMD21; [CTRLA.WMODE], [CACHEDIS0] and [CACHEDIS1] on SAMD51) and
    restored after it, so these assignments are left out.  Every poll of a
    ready or done flag is taken to come back: the controller completes each
    command. *)
Definition write (flash_ptr : Z) (src : Z -> byte) (size : Z) : M bool :=
  if negb (isWithinBounds flash_ptr size) then ret false
  else
    let size := u32 (size + 3) / 4 in
    write_pages (Z.to_nat size) src flash_ptr 0 size ;;;
    ret true.

(** The private single-row [erase(flash_ptr)].  The cache invalidation and
    the barriers that follow the command in the SAMD51 build do not touch
    the flash array and are left out; the poll of the ready or done flag
    after the command is taken to come back. *)
Definition erase_row (flash_ptr : Z) : M bool :=
  let addr := u32 flash_ptr in
  if ROW_SIZE f =? 0 then undefined
  else if negb (addr mod ROW_SIZE f =? 0) then ret false
  else
    let flash_size_bytes :=
      match target p with
      | SAMD51 => u32 ((NVMP p mod 2 ^ 16) * PAGE_SIZE f * 64)
      | SAMD21 => u32 ((NVMP p mod 2 ^ 16) * PAGE_SIZE f)
      end in
    if addr >=? flash_size_bytes then ret false
    else
      nvm_set_ADDR (match target p with
                    | SAMD51 => addr
                    | SAMD21 => addr / 2
                    end) ;;;
      nvm_ER p ;;;
      ret true.

(** The [while (size > ROW_SIZE)] loop of [erase(flash_ptr, size)] and
    the trailing row. *)
Fixpoint erase_rows (fuel : nat) (ptr size : Z) : M bool :=
  if size >? ROW_SIZE f then
    match fuel with
    | O => undefined
    | S fuel' =>
        ok <- erase_row ptr ;;
        if negb ok then ret false
        else erase_rows fuel' (ptr + ROW_SIZE f) (size - ROW_SIZE f)
    end
  else if size >? 0 then erase_row ptr
  else ret true.

Definition erase (flash_ptr size : Z) : M bool :=
  if negb (isWithinBounds flash_ptr size) then ret false
  else erase_rows (Z.to_nat (size / ROW_SIZE f)) flash_ptr size.

(** [read(flash_ptr, data, size)]: [Some bytes] is "returns true with
    [bytes] copied into [data]", [None] is "returns false, [data]
    untouched". *)
Definition read (flash_ptr size : Z) : M (option (list byte)) :=
  if negb (isWithinBounds flash_ptr size) then ret None
  else fun st => Some (Some (memcpy_from (mem st) flash_ptr size), st).

(** The whole-region forms. *)
Definition write_all (src : Z -> byte) : M bool :=
  write (flash_address f) src (flash_size f).
Definition erase_all : M bool := erase (flash_address f) (flash_size f).
Definition read_all : M (option (list byte)) :=
  read (flash_address f) (flash_size f).

End Driver.
End FlashClass.

(** ** [template<class T> class FlashStorageClass]

    The template parameter is represented by what the class uses of it: its
    size and its alignment.  A value of type [T] is its object
    representation, [sizeof T] bytes; assignment copies it byte for byte. *)

Record ctype := {
  sizeof : Z;
  alignof : Z
}.

Definition align_up (x a : Z) : Z := (x + a - 1) / a * a.

(** Layout of [struct StorageFormat { uint16_t id_hash; T data; uint16_t
    checksum; }] under the C++ ABI of the target: every member sits at the
    next multiple of its alignment, and the size of the struct is rounded up
    to the largest member alignment. *)
Definition offsetof_id_hash : Z := 0.
Definition offsetof_data (T : ctype) : Z := align_up 2 (alignof T).
Definition offsetof_checksum (T : ctype) : Z :=
  align_up (offsetof_data T + sizeof T) 2.
Definition alignof_StorageFormat (T : ctype) : Z := Z.max 2 (alignof T).
Definition sizeof_StorageFormat (T : ctype) : Z :=
  align_up (offsetof_checksum T + 2) (alignof_StorageFormat T).

(** Member access on the object representation of a struct. *)
Definition store_field (obj : list byte) (off : Z) (v : list byte) : list byte :=
  firstn (Z.to_nat off) obj ++ v ++ skipn (Z.to_nat off + length v) obj.

Definition load_field (obj : list byte) (off len : Z) : list byte :=
  firstn (Z.to_nat len) (skipn (Z.to_nat off) obj).

(** [memcmp(a, b, n) == 0] *)
Fixpoint memcmp_eq (a b : list byte) (n : nat) : bool :=
  match n with
  | O => true
  | S n' =>
      match a, b with
      | x :: a', y :: b' => Byte.eqb x y && memcmp_eq a' b' n'
      | _, _ => false
      end
  end.

(** What a pointer to a local object sees: the object, then whatever lies
    behind it on the stack. *)
Definition object_at (obj : list byte) (behind : Z -> byte) : Z -> byte :=
  fun i => if i <? Z.of_nat (length obj)
           then nth (Z.to_nat i) obj Byte.x00
           else behind (i - Z.of_nat (length obj)).

Record FlashStorageClass := {
  flash : FlashClass;
  variable_hash : Z
}.

Definition FlashStorageClass_new (p : nvm_param) (T : ctype)
    (flash_addr var_hash : Z) : FlashStorageClass :=
  {| flash := FlashClass_new p flash_addr (u32 (sizeof_StorageFormat T));
     variable_hash := u16 var_hash |}.

Module FlashStorageClass.
Section Store.

Variable p : nvm_param.
Variable T : ctype.
Variable s : FlashStorageClass.

Definition checksum_seed : Z := 0xA5A5.

Definition checksum_step (sum : Z) (b : byte) : Z :=
  let sum := u16 (sum + byte.unsigned b) in
  u16 (Z.lxor sum (Z.shiftr sum 8)).

(** [calcChecksum(ptr, len)] over the [len] bytes at [ptr]. *)
Definition calcChecksum (ptr : list byte) : Z :=
  fold_left checksum_step ptr checksum_seed.

(** The candidate record of [write]: zero-initialised, then the three
    members assigned. *)
Definition make_pkg (data : list byte) : list byte :=
  let pkg := repeat Byte.x00 (Z.to_nat (sizeof_StorageFormat T)) in
  let pkg := store_field pkg offsetof_id_hash (le_split 2 (variable_hash s)) in
  let pkg := store_field pkg (offsetof_data T) data in
  store_field pkg (offsetof_checksum T) (le_split 2 (calcChecksum data)).

(** [write(T data)]; [behind] is the stack content that follows the
    local [pkg]. *)
Definition write (data : list byte) (behind : Z -> byte) : M bool :=
  let pkg := make_pkg data in
  existing <- FlashClass.read_all (flash s) ;;
  if match existing with
     | Some e => memcmp_eq pkg e (Z.to_nat (sizeof_StorageFormat T))
     | None => false
     end
  then ret true
  else
    ok <- FlashClass.erase_all p (flash s) ;;
    if ok then FlashClass.write_all (flash s) (object_at pkg behind)
    else ret false.

(** [read(T *data)]: [Some d] is "returns true with [*data = d]", [None]
    is "returns false, [*data] untouched". *)
Definition read : M (option (list byte)) :=
  r <- FlashClass.read_all (flash s) ;;
  match r with
  | None => ret None
  | Some pkg =>
      if negb (le_combine (load_field pkg offsetof_id_hash 2) =? variable_hash s)
      then ret None
      else
        let data := load_field pkg (offsetof_data T) (sizeof T) in
        let expected := calcChecksum data in
        if negb (le_combine (load_field pkg (offsetof_checksum T) 2) =? expected)
        then ret None
        else ret (Some data)
  end.

(** [T read()]: [T data; read(&data); return data;].  The local is
    default-initialised, which for a type without a constructor leaves
    the bytes [uninit] that the stack slot held. *)
Definition read_default (uninit : list byte) : M (list byte) :=
  r <- read ;;
  ret (match r with Some d => d | None => uninit end).

End Store.
End FlashStorageClass.

(** * Vocabulary of the properties *)

(** A value of a 32-bit unsigned type ([uint32_t], [uintptr_t], a pointer). *)
Definition is_u32 (x : Z) : Prop := 0 <= x < 2 ^ 32.

(** The range [[ptr, ptr + size)] lies inside the region of [f] and its end
    is representable. *)
Definition in_bounds (f : FlashClass) (ptr size : Z) : Prop :=
  flash_address f <= ptr /\
  ptr + size <= flash_address f + flash_size f /\
  ptr + size <= UINTPTR_MAX.

(** The bytes the fill loop latches for [k] words read at [src + so] and
    stored at [dst]. *)
Fixpoint latched (k : nat) (src : Z -> byte) (dst so : Z) : list (Z * byte) :=
  match k with
  | O => []
  | S k' =>
      [(u32 dst, src so); (u32 (u32 dst + 1), src (so + 1));
       (u32 (u32 dst + 2), src (so + 2)); (u32 (u32 dst + 3), src (so + 3))]
      ++ latched k' src (dst + 4) (so + 4)
  end.

(** Is the command a row erase? *)
Definition is_erase (c : command) : bool :=
  match c with CMD_ER _ => true | _ => false end.

(** The row-erase commands of a trace, in order. *)
Definition erase_commands (t : list command) : list command :=
  filter is_erase t.

(** Number of single-row erases for [n] bytes with rows of [R] bytes:
    [k + (1 if r > 0 else 0)] where [n = k * R + r]. *)
Definition erase_count (n R : Z) : nat :=
  Z.to_nat (n / R + (if 0 <? n mod R then 1 else 0)).

(** The addresses [ptr, ptr + R, ...] of [c] consecutive rows. *)
Definition row_targets (ptr R : Z) (c : nat) : list Z :=
  map (fun i => ptr + Z.of_nat i * R) (seq 0 c).

(** What every object type of the target satisfies: a positive size and
    alignment, and no object larger than [PTRDIFF_MAX]. *)
Definition ctype_ok (T : ctype) : Prop :=
  0 < sizeof T /\ 0 < alignof T /\ sizeof_StorageFormat T < 2 ^ 31.

(** The state in which bit [k] of the flash byte at [a] has been flipped
    behind the driver's back. *)
Definition flip_bit (st : nvm_state) (a k : Z) : nvm_state :=
  {| mem := fun x => if x =? a
                     then byte.xor (mem st x) (byte.of_Z (2 ^ k))
                     else mem st x;
     page_buffer := page_buffer st; ADDR := ADDR st; trace := trace st |}.

(** ** Example configuration

    A SAMD21 part with 64-byte pages and 4096 pages (256 KiB), an erased
    flash array, and a 1024-byte region at a row-aligned address. *)

Definition hw_example : nvm_param := {| target := SAMD21; PSZ := 3; NVMP := 4096 |}.

Definition st_erased : nvm_state :=
  {| mem := fun _ => erased; page_buffer := []; ADDR := 0; trace := [] |}.

Definition region_example : FlashClass := FlashClass_new hw_example 4096 1024.

(** Example value types and a typed store over the example region. *)
Definition uint32_t : ctype := {| sizeof := 4; alignof := 4 |}.
Definition uint16_t : ctype := {| sizeof := 2; alignof := 2 |}.

Definition store_example : FlashStorageClass :=
  FlashStorageClass_new hw_example uint32_t 4096
    (FlashStorageInternal.hash_variable "my_flash_store" 4).

Definition value_example : list byte := [Byte.x01; Byte.x02; Byte.x03; Byte.x04].

(** A six-byte region, as the typed store of a two-byte [T] builds it, and a
    six-byte source buffer with the two bytes that follow it in memory. *)
Definition region_small : FlashClass := FlashClass_new hw_example 4096 6.

Definition src_example : Z -> byte :=
  object_at [Byte.x11; Byte.x22; Byte.x33; Byte.x44; Byte.x55; Byte.x66]
    (fun i => if i =? 0 then Byte.x77 else Byte.x88).

(** ** The allocation macros and further vocabulary *)

(** [__aligned__(8192)] (SAMD51) or [__aligned__(256)] of the [Flash] and
    [FlashStorage] macros. *)
Definition macro_alignment (p : nvm_param) : Z :=
  match target p with SAMD51 => 8192 | SAMD21 => 256 end.

(** Length of the array that [FlashStorage(name, T)] reserves:
    [(sizeof(T)+4+255)/256*256], or with 8191 and 8192, in [size_t]. *)
Definition FlashStorage_reserved (p : nvm_param) (T : ctype) : Z :=
  let A := macro_alignment p in
  u32 (u32 (u32 (sizeof T + 4) + (A - 1)) / A * A).

(** The object that [FlashStorage(name, T)] declares over its array at
    address [data]. *)
Definition FlashStorage (p : nvm_param) (T : ctype) (name : string)
    (data : Z) : FlashStorageClass :=
  FlashStorageClass_new p T data
    (FlashStorageInternal.hash_variable name (sizeof T)).

(** The implemented flash size that the single-row erase computes from the
    descriptor register, for a region built by the constructor. *)
Definition flash_size_bytes (p : nvm_param) : Z :=
  match target p with
  | SAMD51 => u32 ((NVMP p mod 2 ^ 16) * page_size p * 64)
  | SAMD21 => u32 ((NVMP p mod 2 ^ 16) * page_size p)
  end.

(** Number of page-sized chunks for [words] words with [wpp] words per
    page. *)
Definition page_count (words wpp : Z) : nat :=
  Z.to_nat ((words + wpp - 1) / wpp).

(** The commands of [n] page programming rounds. *)
Definition page_commands (n : nat) : list command :=
  concat (repeat [CMD_PBC; CMD_WP] n).

(** * Properties *)

(** ** Integer types *)

Lemma u32_small x : is_u32 x -> u32 x = x.
Proof. unfold is_u32, u32. intros H. apply Z.mod_small. exact H. Qed.

Lemma u32_range x : is_u32 (u32 x).
Proof. unfold is_u32, u32. apply Z.mod_pos_bound. reflexivity. Qed.

Lemma u16_small x : 0 <= x < 2 ^ 16 -> u16 x = x.
Proof. unfold u16. intros H. apply Z.mod_small. exact H. Qed.

Lemma u16_range x : 0 <= u16 x < 2 ^ 16.
Proof. unfold u16. apply Z.mod_pos_bound. reflexivity. Qed.

(** ** Monad plumbing *)

Lemma bind_Some {A B} (m : M A) (k : A -> M B) st r :
  bind m k st = Some r ->
  exists a st1, m st = Some (a, st1) /\ k a st1 = Some r.
Proof.
  unfold bind. destruct (m st) as [[a st1]|]; [|discriminate].
  intros H. exists a, st1. split; [reflexivity | exact H].
Qed.

Lemma bind_eq {A B} (m : M A) (k : A -> M B) st a st1 :
  m st = Some (a, st1) -> bind m k st = k a st1.
Proof. unfold bind. intros ->. reflexivity. Qed.

Lemma run_true {A} (m : option (bool * A)) :
  option_map fst m = Some true -> exists a, m = Some (true, a).
Proof.
  destruct m as [[[] a]|]; cbn; intros H; try discriminate.
  exists a. reflexivity.
Qed.

(** ** Bounds checking *)

Lemma isWithinBounds_unbounded f ptr size :
  flash_size f = 0 \/ flash_address f = NULL ->
  FlashClass.isWithinBounds f ptr size = true.
Proof.
  unfold FlashClass.isWithinBounds. intros [H | H]; rewrite H.
  - reflexivity.
  - rewrite Z.eqb_refl, orb_true_r. reflexivity.
Qed.

Lemma isWithinBounds_sound f ptr size :
  is_u32 ptr -> is_u32 size ->
  is_u32 (flash_address f) -> is_u32 (flash_size f) ->
  0 < flash_size f -> flash_address f <> NULL ->
  FlashClass.isWithinBounds f ptr size = true ->
  in_bounds f ptr size.
Proof.
  intros Hp Hs Hb Hl Hpos Hnn. unfold FlashClass.isWithinBounds.
  destruct (flash_size f =? 0) eqn:E0; [apply Z.eqb_eq in E0; lia|].
  destruct (flash_address f =? NULL) eqn:E1; [apply Z.eqb_eq in E1; contradiction|].
  cbn [orb]. rewrite (u32_small ptr Hp), (u32_small _ Hb).
  destruct (ptr >? UINTPTR_MAX - size) eqn:E2; [discriminate|].
  assert (Hsum : ptr + size <= UINTPTR_MAX).
  { pose proof (Zgt_cases ptr (UINTPTR_MAX - size)) as G. rewrite E2 in G. lia. }
  unfold UINTPTR_MAX, is_u32 in *.
  rewrite (u32_small (ptr + size)) by (unfold is_u32; lia).
  intros H. apply andb_true_iff in H. destruct H as [H1 H2].
  apply Z.geb_le in H1. apply Z.leb_le in H2.
  assert (Hend : u32 (flash_address f + flash_size f)
                 <= flash_address f + flash_size f).
  { unfold u32. apply Z.mod_le; lia. }
  unfold in_bounds, UINTPTR_MAX. lia.
Qed.

Lemma write_true_bounds f ptr src size st st' :
  FlashClass.write f ptr src size st = Some (true, st') ->
  FlashClass.isWithinBounds f ptr size = true.
Proof.
  unfold FlashClass.write.
  destruct (FlashClass.isWithinBounds f ptr size); [reflexivity|].
  cbn. unfold ret. discriminate.
Qed.

Lemma erase_true_bounds p f ptr size st st' :
  FlashClass.erase p f ptr size st = Some (true, st') ->
  FlashClass.isWithinBounds f ptr size = true.
Proof.
  unfold FlashClass.erase.
  destruct (FlashClass.isWithinBounds f ptr size); [reflexivity|].
  cbn. unfold ret. discriminate.
Qed.

Lemma read_Some_bounds f ptr size st bs st' :
  FlashClass.read f ptr size st = Some (Some bs, st') ->
  FlashClass.isWithinBounds f ptr size = true /\
  st' = st /\ bs = memcpy_from (mem st) ptr size.
Proof.
  unfold FlashClass.read.
  destruct (FlashClass.isWithinBounds f ptr size); cbn.
  - intros H. inversion H. auto.
  - unfold ret. discriminate.
Qed.

Lemma read_accepted f ptr size st :
  FlashClass.isWithinBounds f ptr size = true ->
  FlashClass.read f ptr size st = Some (Some (memcpy_from (mem st) ptr size), st).
Proof. unfold FlashClass.read. intros ->. reflexivity. Qed.

(** ** Page programming *)

Lemma byte_and_erased b : byte.and erased b = b.
Proof. destruct b; reflexivity. Qed.

Lemma store32_unaligned src dst so st :
  nvm_store32 dst (read_unaligned_uint32 src so) st =
  Some (tt, {| mem := mem st;
               page_buffer := page_buffer st ++ latched 1 src dst so;
               ADDR := ADDR st; trace := trace st |}).
Proof.
  unfold nvm_store32, read_unaligned_uint32.
  change 4%nat with (length [src so; src (so + 1); src (so + 2); src (so + 3)]).
  rewrite split_le_combine. cbn [latched combine app]. reflexivity.
Qed.

Lemma fill_page_buffer_spec n : forall src dst so size st,
  0 <= size ->
  let k := Nat.min n (Z.to_nat size) in
  FlashClass.fill_page_buffer n src dst so size st =
  Some ((dst + 4 * Z.of_nat k, so + 4 * Z.of_nat k, size - Z.of_nat k),
        {| mem := mem st;
           page_buffer := page_buffer st ++ latched k src dst so;
           ADDR := ADDR st; trace := trace st |}).
Proof.
  induction n as [|n IH]; intros src dst so size st Hsize; cbn zeta.
  - cbn. unfold ret. rewrite app_nil_r, !Z.add_0_r, Z.sub_0_r.
    destruct st; reflexivity.
  - cbn [FlashClass.fill_page_buffer].
    destruct (size =? 0) eqn:E.
    + apply Z.eqb_eq in E. subst size. cbn. unfold ret.
      rewrite app_nil_r, !Z.add_0_r. destruct st; reflexivity.
    + apply Z.eqb_neq in E.
      rewrite (bind_eq _ _ _ _ _ (store32_unaligned src dst so st)).
      rewrite IH by lia. cbn [mem page_buffer ADDR trace].
      replace (Nat.min (S n) (Z.to_nat size))
        with (S (Nat.min n (Z.to_nat (size - 1)))) by lia.
      cbn [latched]. rewrite <- !app_assoc. cbn [app].
      set (m := Nat.min n (Z.to_nat (size - 1))).
      replace (dst + 4 * Z.of_nat (S m)) with (dst + 4 + 4 * Z.of_nat m) by lia.
      replace (so + 4 * Z.of_nat (S m)) with (so + 4 + 4 * Z.of_nat m) by lia.
      replace (size - Z.of_nat (S m)) with (size - 1 - Z.of_nat m) by lia.
      reflexivity.
Qed.

Lemma commit_app l1 l2 m : commit (l1 ++ l2) m = commit l2 (commit l1 m).
Proof. unfold commit. apply fold_left_app. Qed.

Ltac cases_Z :=
  repeat match goal with
    | |- context [?a =? ?b] => destruct (Z.eqb_spec a b)
    | |- context [?a <=? ?b] => destruct (Z.leb_spec a b)
    | |- context [?a <? ?b] => destruct (Z.ltb_spec a b)
    end;
  cbn [andb orb negb]; try lia.

(** Committing the latched words programs exactly the bytes
    [[dst, dst + 4k)], each with its source byte. *)
Lemma commit_latched k : forall src dst so m x,
  0 <= dst -> dst + 4 * Z.of_nat k <= 2 ^ 32 ->
  commit (latched k src dst so) m x =
  if (dst <=? x) && (x <? dst + 4 * Z.of_nat k)
  then byte.and (m x) (src (x - dst + so))
  else m x.
Proof.
  induction k as [|k IH]; intros src dst so m x H0 H1.
  - cbn [latched commit fold_left]. cases_Z; reflexivity.
  - cbn [latched]. rewrite commit_app, IH by lia.
    assert (Hd : u32 dst = dst) by (apply u32_small; unfold is_u32; lia).
    rewrite Hd.
    rewrite !u32_small by (unfold is_u32; lia).
    cbn [commit fold_left fst snd]. unfold program_byte.
    cases_Z; try reflexivity; f_equal; try (f_equal; lia).
Qed.

Lemma erase_commands_app t1 t2 :
  erase_commands (t1 ++ t2) = erase_commands t1 ++ erase_commands t2.
Proof. apply filter_app. Qed.

Lemma write_pages_spec f fuel : forall src dst so size st st',
  FlashClass.write_pages f fuel src dst so size st = Some (tt, st') ->
  0 <= size -> 0 <= dst -> dst + 4 * size <= 2 ^ 32 ->
  (forall x, mem st' x =
             if (dst <=? x) && (x <? dst + 4 * size)
             then byte.and (mem st x) (src (x - dst + so))
             else mem st x) /\
  erase_commands (trace st') = erase_commands (trace st).
Proof.
  induction fuel as [|fuel IH]; intros src dst so size st st' H Hs Hd Hw;
    cbn [FlashClass.write_pages] in H.
  - destruct (Z.eqb_spec size 0) as [->|]; [|discriminate].
    inversion H; subst. split; [|reflexivity].
    intros x. cases_Z; reflexivity.
  - destruct (Z.eqb_spec size 0) as [->|Hne].
    { inversion H; subst. split; [|reflexivity]. intros x. cases_Z; reflexivity. }
    unfold bind at 1 in H. cbn [nvm_PBC] in H.
    unfold bind at 1 in H. rewrite fill_page_buffer_spec in H by lia.
    cbn [mem page_buffer ADDR trace app fst snd] in H.
    unfold bind at 1 in H. cbn [nvm_WP mem page_buffer ADDR trace] in H.
    set (k := Nat.min (Z.to_nat (PAGE_SIZE f / 4)) (Z.to_nat size)) in *.
    apply IH in H; try lia. cbn [mem trace] in H. destruct H as [Hm Ht].
    split.
    + intros x. rewrite Hm. rewrite commit_latched by lia.
      cases_Z; try reflexivity; f_equal; f_equal; lia.
    + rewrite Ht, !erase_commands_app. cbn. rewrite !app_nil_r. reflexivity.
Qed.

Lemma write_pages_total f fuel : forall src dst so size st,
  4 <= PAGE_SIZE f -> 0 <= size -> (Z.to_nat size <= fuel)%nat ->
  exists st', FlashClass.write_pages f fuel src dst so size st = Some (tt, st').
Proof.
  induction fuel as [|fuel IH]; intros src dst so size st Hp Hs Hf;
    cbn [FlashClass.write_pages].
  - replace size with 0 by lia. cbn. eexists; reflexivity.
  - destruct (Z.eqb_spec size 0) as [->|Hne]; [eexists; reflexivity|].
    unfold bind at 1. cbn [nvm_PBC].
    unfold bind at 1. rewrite fill_page_buffer_spec by lia.
    cbn [fst snd]. unfold bind at 1. cbn [nvm_WP].
    assert (1 <= PAGE_SIZE f / 4) by (apply Z.div_le_lower_bound; lia).
    apply IH; lia.
Qed.

Lemma write_effect f ptr src size st st' :
  FlashClass.write f ptr src size st = Some (true, st') ->
  let n := 4 * (u32 (size + 3) / 4) in
  0 <= ptr -> ptr + n <= 2 ^ 32 ->
  (forall x, mem st' x =
             if (ptr <=? x) && (x <? ptr + n)
             then byte.and (mem st x) (src (x - ptr))
             else mem st x) /\
  erase_commands (trace st') = erase_commands (trace st).
Proof.
  intros H n H0 H1. revert H. unfold FlashClass.write.
  destruct (FlashClass.isWithinBounds f ptr size); cbn [negb];
    [|unfold ret; discriminate].
  intros H. apply bind_Some in H. destruct H as ([] & st1 & Hw & Hr).
  inversion Hr; subst st1.
  assert (0 <= u32 (size + 3) / 4).
  { apply Z.div_pos; [apply u32_range | lia]. }
  apply write_pages_spec in Hw; try (subst n; lia).
  destruct Hw as [Hm Ht]. split; [|exact Ht].
  intros x. rewrite Hm, Z.add_0_r. subst n. cases_Z; reflexivity.
Qed.

Lemma write_total f ptr src size st :
  FlashClass.isWithinBounds f ptr size = true -> 4 <= PAGE_SIZE f ->
  exists st', FlashClass.write f ptr src size st = Some (true, st').
Proof.
  intros Hb Hp. unfold FlashClass.write. rewrite Hb. cbn [negb].
  assert (0 <= u32 (size + 3) / 4).
  { apply Z.div_pos; [apply u32_range | lia]. }
  destruct (write_pages_total f (Z.to_nat (u32 (size + 3) / 4)) src ptr 0
              (u32 (size + 3) / 4) st Hp) as [st' E]; [lia | lia |].
  exists st'. unfold bind. rewrite E. reflexivity.
Qed.

(** ** Page and row geometry *)

Lemma page_size_In p : In (page_size p) pageSizes.
Proof.
  unfold page_size. apply nth_In.
  pose proof (Z.mod_pos_bound (PSZ p) 8 eq_refl). cbn [pageSizes length]. lia.
Qed.

Lemma page_size_bounds p : 8 <= page_size p <= 1024 /\ page_size p mod 4 = 0.
Proof.
  pose proof (page_size_In p) as H. unfold pageSizes in H. cbn [In] in H.
  repeat (destruct H as [H|H]; [rewrite <- H; split; [lia | reflexivity]|]).
  contradiction.
Qed.

Lemma row_size_nonneg p : 0 <= row_size p.
Proof.
  unfold row_size. destruct (target p).
  - apply u32_range.
  - apply Z.div_pos; [apply u32_range | lia].
Qed.

Lemma row_size_SAMD21 p : target p = SAMD21 -> row_size p = 4 * page_size p.
Proof.
  intros H. unfold row_size. rewrite H.
  pose proof (page_size_bounds p). rewrite u32_small; unfold is_u32; lia.
Qed.

(** For a row-aligned address, the row the controller resolves from the
    address register is the row that starts at that address. *)
Lemma ADDR_row_base p addr :
  0 < row_size p -> addr mod row_size p = 0 ->
  ADDR_bytes p (match target p with SAMD51 => addr | SAMD21 => addr / 2 end)
    / row_size p * row_size p = addr.
Proof.
  intros HR Hal. unfold ADDR_bytes.
  destruct (target p) eqn:E.
  - pose proof (row_size_SAMD21 p E) as HR4. pose proof (page_size_bounds p).
    assert (addr mod 2 = 0).
    { apply Z.mod_divide in Hal; [|lia]. destruct Hal as [q Hq].
      apply Z.mod_divide; [lia|]. exists (q * (2 * page_size p)). lia. }
    replace (2 * (addr / 2)) with addr
      by (pose proof (Z.div_mod addr 2); lia).
    pose proof (Z.div_mod addr (row_size p)). lia.
  - pose proof (Z.div_mod addr (row_size p)). lia.
Qed.

(** ** Row erase *)

Lemma erase_row_true p f ptr st st' :
  ROW_SIZE f = row_size p ->
  FlashClass.erase_row p f ptr st = Some (true, st') ->
  0 < row_size p /\ u32 ptr mod row_size p = 0 /\
  mem st' = erase_range (mem st) (u32 ptr) (row_size p) /\
  page_buffer st' = page_buffer st /\
  trace st' = trace st ++ [CMD_ER (u32 ptr)].
Proof.
  intros HR. unfold FlashClass.erase_row. rewrite HR.
  destruct (Z.eqb_spec (row_size p) 0) as [|Hne]; [discriminate|].
  pose proof (row_size_nonneg p).
  destruct (Z.eqb_spec (u32 ptr mod row_size p) 0) as [Hal|];
    cbn [negb]; [|unfold ret; discriminate].
  match goal with |- context [if ?c then _ else _] => destruct c end;
    [unfold ret; discriminate|].
  unfold bind, nvm_set_ADDR, nvm_ER, ret. cbn [ADDR mem page_buffer trace].
  rewrite ADDR_row_base by lia.
  intros H'. inversion H'; subst st'. cbn [mem page_buffer trace].
  repeat split; try reflexivity; lia.
Qed.

(** A row-aligned address inside the implemented flash is followed by a
    whole row that ends well below the top of the address space, for every
    geometry the descriptor register can report. *)
Lemma row_below_top p addr :
  0 < row_size p -> 0 <= addr -> addr mod row_size p = 0 ->
  addr < match target p with
         | SAMD51 => u32 ((NVMP p mod 2 ^ 16) * page_size p * 64)
         | SAMD21 => u32 ((NVMP p mod 2 ^ 16) * page_size p)
         end ->
  addr + row_size p <= 2 ^ 32 - 65536.
Proof.
  intros HR H0 Hal Hlt.
  pose proof (Z.mod_pos_bound (NVMP p) (2 ^ 16) eq_refl) as Hn.
  apply Z.mod_divide in Hal; [|lia]. destruct Hal as [q Hq].
  unfold row_size in *. set (n := NVMP p mod 2 ^ 16) in *.
  pose proof (page_size_In p) as Hps. unfold pageSizes in Hps. cbn [In] in Hps.
  destruct (target p);
    repeat (destruct Hps as [Hps|Hps];
            [rewrite <- Hps in *; unfold u32 in *;
             rewrite Z.mod_small in * by lia;
             try (Z.div_mod_to_equations; nia)|]);
    try contradiction.
  assert (E : 1024 * n / 64 = 16 * n) by (Z.div_mod_to_equations; lia).
  rewrite E in *. assert (q <= 4095) by nia. nia.
Qed.

Lemma erase_row_no_wrap p f ptr st st' :
  PAGE_SIZE f = page_size p -> ROW_SIZE f = row_size p ->
  FlashClass.erase_row p f ptr st = Some (true, st') ->
  u32 ptr + row_size p <= 2 ^ 32 - 65536.
Proof.
  intros HP HR. unfold FlashClass.erase_row. rewrite HR, HP.
  destruct (Z.eqb_spec (row_size p) 0) as [|Hne]; [discriminate|].
  pose proof (row_size_nonneg p).
  destruct (Z.eqb_spec (u32 ptr mod row_size p) 0) as [Hal|];
    cbn [negb]; [|unfold ret; discriminate].
  match goal with |- context [if ?a >=? ?b then _ else _] =>
    destruct (Z.geb_spec a b) as [|Hlt] end; [unfold ret; discriminate|].
  intros _. apply row_below_top; try assumption; try lia.
  apply u32_range.
Qed.

Lemma erase_row_false p f ptr st st' :
  FlashClass.erase_row p f ptr st = Some (false, st') -> st' = st.
Proof.
  unfold FlashClass.erase_row.
  destruct (ROW_SIZE f =? 0); [discriminate|].
  destruct (negb _); [unfold ret; intros H; inversion H; reflexivity|].
  match goal with |- context [if ?c then _ else _] => destruct c end;
    [unfold ret; intros H; inversion H; reflexivity|].
  unfold bind, nvm_set_ADDR, nvm_ER, ret. discriminate.
Qed.

Lemma erase_row_defined p f ptr st :
  ROW_SIZE f <> 0 -> FlashClass.erase_row p f ptr st <> None.
Proof.
  intros H. unfold FlashClass.erase_row.
  destruct (Z.eqb_spec (ROW_SIZE f) 0); [contradiction|].
  destruct (negb _); [unfold ret; discriminate|].
  match goal with |- context [if ?c then _ else _] => destruct c end;
    unfold bind, nvm_set_ADDR, nvm_ER, ret; discriminate.
Qed.

Lemma row_targets_S ptr R c :
  row_targets ptr R (S c) = ptr :: row_targets (ptr + R) R c.
Proof.
  unfold row_targets. cbn [seq map]. f_equal; [lia|].
  rewrite <- seq_shift, map_map. apply map_ext. intros i. lia.
Qed.

Lemma erase_count_0 R : erase_count 0 R = 0%nat.
Proof. unfold erase_count. rewrite Zdiv_0_l, Zmod_0_l. reflexivity. Qed.

Lemma erase_count_last n R : 0 < n <= R -> erase_count n R = 1%nat.
Proof.
  intros H. unfold erase_count.
  destruct (Z.eq_dec n R) as [->|Hne].
  - rewrite Z.div_same by lia. rewrite Z.mod_same by lia. reflexivity.
  - rewrite Z.div_small by lia. rewrite Z.mod_small by lia.
    destruct (Z.ltb_spec 0 n); [reflexivity | lia].
Qed.

Lemma erase_count_step n R :
  0 < R < n -> erase_count n R = S (erase_count (n - R) R).
Proof.
  intros H. unfold erase_count.
  replace n with (n - R + 1 * R) at 1 2 by lia.
  rewrite Z.div_add by lia. rewrite Z.mod_add by lia.
  assert (0 <= (n - R) / R) by (apply Z.div_pos; lia).
  destruct (0 <? (n - R) mod R); lia.
Qed.

Lemma erase_rows_true p f fuel : forall ptr size st st',
  PAGE_SIZE f = page_size p -> ROW_SIZE f = row_size p ->
  FlashClass.erase_rows p f fuel ptr size st = Some (true, st') ->
  is_u32 ptr -> 0 <= size ->
  let R := row_size p in
  let c := erase_count size R in
  trace st' = trace st ++ map CMD_ER (row_targets ptr R c) /\
  (forall x, mem st' x =
             if (ptr <=? x) && (x <? ptr + Z.of_nat c * R)
             then erased else mem st x) /\
  page_buffer st' = page_buffer st /\
  (0 < size ->
     0 < R /\ ptr mod R = 0 /\ ptr + Z.of_nat c * R <= 2 ^ 32 - 65536).
Proof.
  assert (Last : forall ptr size st st',
    PAGE_SIZE f = page_size p -> ROW_SIZE f = row_size p ->
    is_u32 ptr -> 0 <= size -> size <= row_size p ->
    (if size >? 0 then FlashClass.erase_row p f ptr else ret true) st
      = Some (true, st') ->
    let R := row_size p in
    let c := erase_count size R in
    trace st' = trace st ++ map CMD_ER (row_targets ptr R c) /\
    (forall x, mem st' x =
               if (ptr <=? x) && (x <? ptr + Z.of_nat c * R)
               then erased else mem st x) /\
    page_buffer st' = page_buffer st /\
    (0 < size ->
     0 < R /\ ptr mod R = 0 /\ ptr + Z.of_nat c * R <= 2 ^ 32 - 65536)).
  { intros ptr size st st' HP HR Hp Hs Hle H R c.
    rewrite Z.gtb_ltb in H. destruct (Z.ltb_spec 0 size) as [Hpos|Hz].
    - pose proof (erase_row_no_wrap p f ptr st st' HP HR H) as NW.
      apply erase_row_true in H; [|exact HR].
      rewrite u32_small in H, NW by exact Hp.
      destruct H as (E1 & E2 & E3 & E4 & E5). fold R in E1, E2, E3, NW.
      subst c. rewrite erase_count_last by (fold R; lia).
      rewrite row_targets_S. cbn [row_targets seq map].
      repeat split; try assumption; try lia.
      intros x. rewrite E3. unfold erase_range. cases_Z; reflexivity.
    - inversion H; subst st'. assert (size = 0) by lia. subst size.
      subst c. rewrite erase_count_0. cbn [row_targets seq map].
      rewrite app_nil_r. repeat split; try lia.
      intros x. cases_Z; reflexivity. }
  induction fuel as [|fuel IH]; intros ptr size st st' HP HR H Hp Hs R c;
    cbn [FlashClass.erase_rows] in H; rewrite HR, Z.gtb_ltb in H; fold R in H.
  - destruct (Z.ltb_spec R size); [discriminate|].
    apply Last; assumption.
  - destruct (Z.ltb_spec R size) as [Hgt|Hle]; [|apply Last; assumption].
    apply bind_Some in H. destruct H as (ok & st1 & He & Hk).
    destruct ok; cbn [negb] in Hk; [|unfold ret in Hk; discriminate].
    pose proof (erase_row_no_wrap p f ptr st st1 HP HR He) as NW.
    apply erase_row_true in He; [|exact HR].
    rewrite u32_small in He, NW by exact Hp.
    destruct He as (E1 & E2 & E3 & E4 & E5). fold R in E1, E2, E3, NW.
    rewrite ?HR in Hk. fold R in Hk.
    destruct Hp as [Hp0 Hp1].
    apply IH in Hk; try assumption; try (unfold is_u32; lia).
    destruct Hk as (K1 & K2 & K3 & K4).
    subst c. rewrite erase_count_step by lia. rewrite row_targets_S.
    fold R in K1, K2, K4.
    set (c' := erase_count (size - R) R) in *.
    repeat split; try lia.
    + rewrite K1, E5, <- app_assoc. reflexivity.
    + intros x. rewrite K2, E3. unfold erase_range.
      rewrite Nat2Z.inj_succ. cases_Z; reflexivity.
    + congruence.
Qed.

(** The loop never runs out of the fuel [erase] gives it. *)
Lemma erase_rows_defined p f fuel : forall ptr size st,
  0 < ROW_SIZE f -> (Z.to_nat (size / ROW_SIZE f) <= fuel)%nat ->
  FlashClass.erase_rows p f fuel ptr size st <> None.
Proof.
  induction fuel as [|fuel IH]; intros ptr size st HR Hf;
    cbn [FlashClass.erase_rows]; rewrite !Z.gtb_ltb.
  - destruct (Z.ltb_spec (ROW_SIZE f) size) as [Hgt|].
    + exfalso. assert (1 <= size / ROW_SIZE f)
        by (apply Z.div_le_lower_bound; lia). lia.
    + destruct (0 <? size); [apply erase_row_defined; lia | discriminate].
  - destruct (Z.ltb_spec (ROW_SIZE f) size) as [Hgt|].
    + unfold bind.
      destruct (FlashClass.erase_row p f ptr st) as [[[] st1]|] eqn:E.
      * cbn [negb]. apply IH; [exact HR|].
        replace size with (size - ROW_SIZE f + 1 * ROW_SIZE f) in Hf by lia.
        rewrite Z.div_add in Hf by lia.
        assert (0 <= (size - ROW_SIZE f) / ROW_SIZE f)
          by (apply Z.div_pos; lia). lia.
      * discriminate.
      * apply erase_row_defined in E; [contradiction | lia].
    + destruct (0 <? size); [apply erase_row_defined; lia | discriminate].
Qed.

(** [erase] always has a defined result when the row size is not zero. *)
Lemma erase_defined p f ptr size st :
  0 < ROW_SIZE f -> FlashClass.erase p f ptr size st <> None.
Proof.
  intros HR. unfold FlashClass.erase.
  destruct (negb _); [unfold ret; discriminate|].
  apply erase_rows_defined; [exact HR | lia].
Qed.

(** ** The driver depends on the region only through what it reads of it *)

Lemma write_pages_geometry f f' fuel : forall src dst so size st,
  PAGE_SIZE f = PAGE_SIZE f' ->
  FlashClass.write_pages f fuel src dst so size st =
  FlashClass.write_pages f' fuel src dst so size st.
Proof.
  induction fuel as [|fuel IH]; intros src dst so size st HP;
    cbn [FlashClass.write_pages]; [reflexivity|].
  destruct (size =? 0); [reflexivity|].
  rewrite HP. unfold bind.
  destruct (nvm_PBC st) as [[[] st1]|]; [|reflexivity].
  destruct (FlashClass.fill_page_buffer _ src dst so size st1) as [[r st2]|];
    [|reflexivity].
  destruct (nvm_WP st2) as [[[] st3]|]; [|reflexivity].
  apply IH. exact HP.
Qed.

Lemma erase_row_geometry p f f' ptr st :
  PAGE_SIZE f = PAGE_SIZE f' -> ROW_SIZE f = ROW_SIZE f' ->
  FlashClass.erase_row p f ptr st = FlashClass.erase_row p f' ptr st.
Proof. intros HP HR. unfold FlashClass.erase_row. rewrite HP, HR. reflexivity. Qed.

Lemma erase_rows_geometry p f f' fuel : forall ptr size st,
  PAGE_SIZE f = PAGE_SIZE f' -> ROW_SIZE f = ROW_SIZE f' ->
  FlashClass.erase_rows p f fuel ptr size st =
  FlashClass.erase_rows p f' fuel ptr size st.
Proof.
  induction fuel as [|fuel IH]; intros ptr size st HP HR;
    cbn [FlashClass.erase_rows]; rewrite HR.
  - destruct (size >? ROW_SIZE f'); [reflexivity|].
    destruct (size >? 0); [apply erase_row_geometry; assumption | reflexivity].
  - destruct (size >? ROW_SIZE f').
    + unfold bind. rewrite (erase_row_geometry p f f') by assumption.
      destruct (FlashClass.erase_row p f' ptr st) as [[[] st1]|];
        cbn [negb]; try reflexivity.
      apply IH; assumption.
    + destruct (size >? 0); [apply erase_row_geometry; assumption | reflexivity].
Qed.

(** ** Claims about the raw driver *)

(** C1.  Bounds safety.  For a region built with a non-null base and a
    declared length [L > 0], a [read], [write] or [erase] that succeeds was
    given a range with [base <= ptr], [ptr + size <= base + L] and
    [ptr + size] representable in the address width; with [L = 0] the bounds
    check accepts every range: [read] and [write] succeed and [erase] goes
    on to its row loop. *)
Theorem bounds_safety p base L ptr size src st :
  is_u32 base -> is_u32 L -> is_u32 ptr -> is_u32 size ->
  let f := FlashClass_new p base L in
  let ok := base <= ptr /\ ptr + size <= base + L /\ ptr + size <= UINTPTR_MAX in
  (0 < L -> base <> NULL ->
   (forall bs st', FlashClass.read f ptr size st = Some (Some bs, st') -> ok) /\
   (forall st', FlashClass.write f ptr src size st = Some (true, st') -> ok) /\
   (forall st', FlashClass.erase p f ptr size st = Some (true, st') -> ok)) /\
  (L = 0 ->
   FlashClass.isWithinBounds f ptr size = true /\
   FlashClass.read f ptr size st =
     Some (Some (memcpy_from (mem st) ptr size), st) /\
   (exists st', FlashClass.write f ptr src size st = Some (true, st')) /\
   FlashClass.erase p f ptr size st =
     FlashClass.erase_rows p f (Z.to_nat (size / ROW_SIZE f)) ptr size st).
Proof.
  intros Hb HL Hp Hs f ok. split.
  - intros Hpos Hnn.
    assert (S : FlashClass.isWithinBounds f ptr size = true -> ok).
    { intros H. apply (isWithinBounds_sound f ptr size) in H; assumption. }
    split; [|split].
    + intros bs st' H. apply read_Some_bounds in H. apply S, H.
    + intros st' H. apply write_true_bounds in H. apply S, H.
    + intros st' H. apply erase_true_bounds in H. apply S, H.
  - intros H0.
    assert (B : FlashClass.isWithinBounds f ptr size = true).
    { apply isWithinBounds_unbounded. left. exact H0. }
    split; [|split; [|split]].
    + exact B.
    + apply read_accepted, B.
    + apply write_total; [exact B|]. change (4 <= page_size p).
      pose proof (page_size_bounds p). lia.
    + unfold FlashClass.erase. rewrite B. reflexivity.
Qed.

Lemma bounds_safety_witness :
  exists st',
    FlashClass.write region_example 4200 (fun _ => Byte.x00) 16 st_erased
      = Some (true, st') /\
    (4096 <= 4200 /\ 4200 + 16 <= 4096 + 1024 /\ 4200 + 16 <= UINTPTR_MAX).
Proof.
  destruct (run_true (FlashClass.write region_example 4200 (fun _ => Byte.x00)
                        16 st_erased)) as [st' E]; [vm_compute; reflexivity|].
  exists st'. split; [exact E|].
  assert (H : is_u32 4096 /\ is_u32 1024 /\ is_u32 4200 /\ is_u32 16)
    by (unfold is_u32; lia).
  destruct H as (H1 & H2 & H3 & H4).
  refine (proj1 (proj2 (proj1
    (bounds_safety hw_example 4096 1024 4200 16 (fun _ => Byte.x00) st_erased
       H1 H2 H3 H4) _ _)) st' E).
  - lia.
  - unfold NULL. lia.
Defined.

(** C10.  A region built with a NULL base is not bounds-checked, whatever
    its declared length: the check accepts every range, overflowing ones
    included, and [read], [write] and [erase] behave exactly as on a region
    of declared length zero. *)
Theorem null_base_unbounded p L base0 ptr size src st :
  let f := FlashClass_new p NULL L in
  let f0 := FlashClass_new p base0 0 in
  FlashClass.isWithinBounds f ptr size = true /\
  FlashClass.read f ptr size st = FlashClass.read f0 ptr size st /\
  FlashClass.write f ptr src size st = FlashClass.write f0 ptr src size st /\
  FlashClass.erase p f ptr size st = FlashClass.erase p f0 ptr size st.
Proof.
  intros f f0.
  assert (B : FlashClass.isWithinBounds f ptr size = true)
    by (apply isWithinBounds_unbounded; right; reflexivity).
  assert (B0 : FlashClass.isWithinBounds f0 ptr size = true)
    by (apply isWithinBounds_unbounded; left; reflexivity).
  split; [|split; [|split]].
  - exact B.
  - unfold FlashClass.read. rewrite B, B0. reflexivity.
  - unfold FlashClass.write. rewrite B, B0. cbn [negb]. unfold bind.
    rewrite (write_pages_geometry f f0) by reflexivity. reflexivity.
  - unfold FlashClass.erase. rewrite B, B0. cbn [negb].
    apply erase_rows_geometry; reflexivity.
Qed.

Lemma row_targets_In ptr R c r :
  In r (row_targets ptr R c) <->
  exists i, (i < c)%nat /\ r = ptr + Z.of_nat i * R.
Proof.
  unfold row_targets. rewrite in_map_iff. split.
  - intros (i & E & Hi). apply in_seq in Hi. exists i. split; [lia | auto].
  - intros (i & Hi & E). exists i. split; [auto | apply in_seq; lia].
Qed.

Lemma row_targets_NoDup ptr R c : 0 < R -> NoDup (row_targets ptr R c).
Proof.
  intros HR. unfold row_targets. apply Finite.Injective_map_NoDup.
  - intros i j H. nia.
  - apply seq_NoDup.
Qed.

Lemma erase_count_spec n R k r :
  0 < R -> n = k * R + r -> 0 <= r < R ->
  erase_count n R = Z.to_nat (k + (if 0 <? r then 1 else 0)).
Proof.
  intros HR Hn Hr. unfold erase_count.
  assert (Hk : n / R = k) by (symmetry; apply (Z.div_unique n R k r); lia).
  assert (Hm : n mod R = r) by (symmetry; apply (Z.mod_unique n R k r); lia).
  rewrite Hk, Hm. reflexivity.
Qed.

Lemma erase_count_covers n R :
  0 < R -> 0 <= n -> n <= Z.of_nat (erase_count n R) * R.
Proof.
  intros HR Hn. unfold erase_count.
  pose proof (Z.div_mod n R ltac:(lia)) as E.
  pose proof (Z.mod_pos_bound n R HR) as B.
  assert (0 <= n / R) by (apply Z.div_pos; lia).
  destruct (Z.ltb_spec 0 (n mod R)); rewrite Z2Nat.id by lia; nia.
Qed.

(** C5.  Erase decomposition.  On a region built by the constructor, with
    rows of [R] bytes, a successful [erase(ptr, n)] issues exactly
    [k + (1 if r > 0 else 0)] row-erase commands, where [n = k * R + r] and
    [0 <= r < R], and no other command; they target the consecutive
    row-aligned addresses [ptr], [ptr + R], ...; every byte of
    [[ptr, ptr + n)] lies in one of the erased rows and no row is erased
    twice. *)
Theorem erase_decomposition p base L ptr n st st' :
  is_u32 ptr -> 0 <= n ->
  let f := FlashClass_new p base L in
  FlashClass.erase p f ptr n st = Some (true, st') ->
  let R := ROW_SIZE f in
  let rows := row_targets ptr R (erase_count n R) in
  trace st' = trace st ++ map CMD_ER rows /\
  (forall k r, 0 < R -> n = k * R + r -> 0 <= r < R ->
     length rows = Z.to_nat (k + (if 0 <? r then 1 else 0))) /\
  (0 < n -> 0 < R) /\
  Forall (fun a => a mod R = 0) rows /\
  (forall a, ptr <= a < ptr + n -> exists r, In r rows /\ r <= a < r + R) /\
  NoDup rows.
Proof.
  intros Hp Hn f H R rows.
  unfold FlashClass.erase in H.
  destruct (FlashClass.isWithinBounds f ptr n); cbn [negb] in H;
    [|unfold ret in H; discriminate].
  apply erase_rows_true in H; try assumption; try reflexivity.
  destruct H as (Ht & _ & _ & Hal).
  change (row_size p) with R in Ht, Hal. fold rows in Ht.
  split; [exact Ht|].
  split.
  { intros k r HR0 Hk Hr. subst rows. unfold row_targets.
    rewrite length_map, length_seq. apply erase_count_spec; assumption. }
  split; [intros Hpos; apply Hal, Hpos|].
  destruct (Z.eq_dec n 0) as [->|Hne].
  { subst rows. rewrite erase_count_0. cbn.
    repeat split; [constructor | intros a Ha; lia | constructor]. }
  destruct Hal as (HR0 & Hmod & _); [lia|].
  split; [|split].
  - apply Forall_forall. intros r Hr. apply row_targets_In in Hr.
    destruct Hr as (i & _ & ->). rewrite Z.mod_add by lia. exact Hmod.
  - intros a Ha.
    pose proof (erase_count_covers n R HR0 Hn) as Hc.
    exists (ptr + Z.of_nat (Z.to_nat ((a - ptr) / R)) * R).
    assert (0 <= (a - ptr) / R) by (apply Z.div_pos; lia).
    pose proof (Z.div_mod (a - ptr) R ltac:(lia)) as E.
    pose proof (Z.mod_pos_bound (a - ptr) R HR0) as B.
    split.
    + apply row_targets_In. exists (Z.to_nat ((a - ptr) / R)).
      split; [|reflexivity]. apply Nat2Z.inj_lt. rewrite Z2Nat.id by lia.
      apply Z.div_lt_upper_bound; [lia|]. nia.
    + rewrite Z2Nat.id by lia. lia.
  - apply row_targets_NoDup. exact HR0.
Qed.

Lemma erase_decomposition_witness :
  exists st',
    FlashClass.erase hw_example region_example 4096 600 st_erased
      = Some (true, st') /\
    trace st' = trace st_erased ++ map CMD_ER [4096; 4352; 4608].
Proof.
  destruct (run_true (FlashClass.erase hw_example region_example 4096 600
                        st_erased)) as [st' E]; [vm_compute; reflexivity|].
  exists st'. split; [exact E|].
  refine (proj1 (erase_decomposition hw_example 4096 1024 4096 600
                   st_erased st' _ _ E)); [unfold is_u32; lia | lia].
Defined.

(** C8, at the failing input.  The six-byte region at 4096 (the region a
    typed store of a two-byte [T] builds) accepts [write(4096, src, 6)]: the
    bounds check passes for [[4096, 4102)].  The call then programs two
    whole words: the flash bytes at 4102 and 4103, which lie past
    [ptr + size] and outside the region (the bounds check refuses any access
    to them), are programmed with the two bytes that follow the six-byte
    source buffer in memory, here 77 and 88. *)
Lemma write_programs_past_range :
  FlashClass.isWithinBounds region_small 4096 6 = true /\
  FlashClass.isWithinBounds region_small 4102 1 = false /\
  FlashClass.isWithinBounds region_small 4103 1 = false /\
  exists st',
    FlashClass.write region_small 4096 src_example 6 st_erased
      = Some (true, st') /\
    mem st' 4101 = Byte.x66 /\
    mem st_erased 4102 = erased /\ mem st' 4102 = Byte.x77 /\
    mem st_erased 4103 = erased /\ mem st' 4103 = Byte.x88.
Proof.
  split; [reflexivity|]. split; [reflexivity|]. split; [reflexivity|].
  destruct (run_true (FlashClass.write region_small 4096 src_example 6
                        st_erased)) as [st' E]; [vm_compute; reflexivity|].
  exists st'. split; [exact E|].
  destruct (write_effect region_small 4096 src_example 6 st_erased st' E)
    as [Hm _]; [lia | change (u32 (6 + 3) / 4) with 2; lia |].
  change (u32 (6 + 3) / 4) with 2 in Hm.
  rewrite !Hm. cbn. repeat split; reflexivity.
Qed.

(** ** Object representations *)

Lemma length_store_field obj off v :
  (Z.to_nat off + length v <= length obj)%nat ->
  length (store_field obj off v) = length obj.
Proof.
  intros H. unfold store_field.
  rewrite !length_app, length_firstn, length_skipn. lia.
Qed.

Lemma nth_store_field obj off v i d :
  (Z.to_nat off + length v <= length obj)%nat ->
  nth i (store_field obj off v) d =
  if ((Z.to_nat off <=? i) && (i <? Z.to_nat off + length v))%nat
  then nth (i - Z.to_nat off) v d
  else nth i obj d.
Proof.
  intros H. unfold store_field.
  assert (L : length (firstn (Z.to_nat off) obj) = Z.to_nat off)
    by (rewrite length_firstn; lia).
  destruct (Nat.leb_spec (Z.to_nat off) i) as [H1|H1]; cbn [andb].
  - rewrite app_nth2 by lia. rewrite L.
    destruct (Nat.ltb_spec i (Z.to_nat off + length v)) as [H2|H2].
    + rewrite app_nth1 by lia. reflexivity.
    + rewrite app_nth2 by lia. rewrite nth_skipn. f_equal. lia.
  - rewrite app_nth1 by lia. rewrite nth_firstn.
    destruct (Nat.ltb_spec i (Z.to_nat off)); [reflexivity | lia].
Qed.

Lemma length_load_field obj off len :
  (Z.to_nat off + Z.to_nat len <= length obj)%nat ->
  length (load_field obj off len) = Z.to_nat len.
Proof.
  intros H. unfold load_field. rewrite length_firstn, length_skipn. lia.
Qed.

Lemma nth_load_field obj off len i d :
  (i < Z.to_nat len)%nat ->
  nth i (load_field obj off len) d = nth (Z.to_nat off + i) obj d.
Proof.
  intros H. unfold load_field. rewrite nth_firstn.
  destruct (Nat.ltb_spec i (Z.to_nat len)); [|lia]. apply nth_skipn.
Qed.

Lemma length_memcpy_from m ptr size :
  length (memcpy_from m ptr size) = Z.to_nat size.
Proof. unfold memcpy_from. rewrite length_map, length_seq. reflexivity. Qed.

Lemma nth_memcpy_from m ptr size i d :
  (i < Z.to_nat size)%nat ->
  nth i (memcpy_from m ptr size) d = m (u32 (ptr + Z.of_nat i)).
Proof.
  intros H. unfold memcpy_from.
  rewrite (nth_indep _ d (m (u32 (ptr + Z.of_nat 0))))
    by (rewrite length_map, length_seq; exact H).
  rewrite (map_nth (fun i => m (u32 (ptr + Z.of_nat i)))), seq_nth by exact H.
  reflexivity.
Qed.

Lemma memcmp_eq_refl a n : (n <= length a)%nat -> memcmp_eq a a n = true.
Proof.
  revert a. induction n as [|n IH]; intros [|x a] H; cbn in *;
    try reflexivity; try lia.
  rewrite (Byte.byte_dec_lb (eq_refl x)). apply IH. lia.
Qed.

Lemma memcmp_eq_true n : forall a b,
  length a = n -> length b = n -> memcmp_eq a b n = true -> a = b.
Proof.
  induction n as [|n IH]; intros [|x a] [|y b] Ha Hb H; cbn in *;
    try reflexivity; try discriminate.
  apply andb_true_iff in H. destruct H as [H1 H2].
  apply Byte.byte_dec_bl in H1. subst y. f_equal. apply IH; auto.
Qed.

(** ** Record layout *)

Lemma align_up_bounds x a :
  0 < a -> x <= align_up x a < x + a /\ align_up x a mod a = 0.
Proof.
  intros Ha. unfold align_up.
  pose proof (Z.div_mod (x + a - 1) a ltac:(lia)) as E.
  pose proof (Z.mod_pos_bound (x + a - 1) a Ha) as B.
  split; [nia|]. apply Z.mod_mul. lia.
Qed.

Lemma align_up_exact x a : 0 < a -> x mod a = 0 -> align_up x a = x.
Proof.
  intros Ha Hx. apply Z.mod_divide in Hx; [|lia]. destruct Hx as [q ->].
  unfold align_up. replace (q * a + a - 1) with (a - 1 + q * a) by lia.
  rewrite Z.div_add by lia. rewrite Z.div_small by lia. lia.
Qed.

Lemma layout_order T :
  ctype_ok T ->
  2 <= offsetof_data T /\
  offsetof_data T + sizeof T <= offsetof_checksum T /\
  offsetof_checksum T + 2 <= sizeof_StorageFormat T.
Proof.
  intros (Hs & Ha & _).
  unfold sizeof_StorageFormat, offsetof_checksum, offsetof_data,
    alignof_StorageFormat.
  pose proof (align_up_bounds 2 (alignof T) Ha).
  pose proof (align_up_bounds (align_up 2 (alignof T) + sizeof T) 2 eq_refl).
  pose proof (align_up_bounds
                (align_up (align_up 2 (alignof T) + sizeof T) 2 + 2)
                (Z.max 2 (alignof T)) ltac:(lia)).
  lia.
Qed.

Lemma layout_order_nat T (data : list byte) :
  ctype_ok T -> Z.of_nat (length data) = sizeof T ->
  (2 <= Z.to_nat (offsetof_data T) /\
   Z.to_nat (offsetof_data T) + length data <= Z.to_nat (offsetof_checksum T) /\
   Z.to_nat (offsetof_checksum T) + 2 <= Z.to_nat (sizeof_StorageFormat T) /\
   Z.to_nat (sizeof T) = length data)%nat.
Proof. intros HT HL. pose proof (layout_order T HT). lia. Qed.

(** The candidate record, byte by byte: checksum, payload and tag at their
    offsets, zero everywhere else. *)
Lemma nth_make_pkg T s (data : list byte) i d :
  ctype_ok T -> Z.of_nat (length data) = sizeof T ->
  (i < Z.to_nat (sizeof_StorageFormat T))%nat ->
  nth i (FlashStorageClass.make_pkg T s data) d =
  if (Z.to_nat (offsetof_checksum T) <=? i)%nat
     && (i <? Z.to_nat (offsetof_checksum T) + 2)%nat
  then nth (i - Z.to_nat (offsetof_checksum T))
         (le_split 2 (FlashStorageClass.calcChecksum data)) d
  else if (Z.to_nat (offsetof_data T) <=? i)%nat
          && (i <? Z.to_nat (offsetof_data T) + length data)%nat
  then nth (i - Z.to_nat (offsetof_data T)) data d
  else if (i <? 2)%nat
  then nth i (le_split 2 (variable_hash s)) d
  else Byte.x00.
Proof.
  intros HT HL Hi. destruct (layout_order_nat T data HT HL) as (A & B & C & D).
  unfold FlashStorageClass.make_pkg.
  set (pkg0 := repeat Byte.x00 (Z.to_nat (sizeof_StorageFormat T))).
  set (pkg1 := store_field pkg0 offsetof_id_hash _).
  set (pkg2 := store_field pkg1 (offsetof_data T) data).
  assert (L0 : length pkg0 = Z.to_nat (sizeof_StorageFormat T))
    by apply repeat_length.
  assert (L1 : length pkg1 = Z.to_nat (sizeof_StorageFormat T)).
  { subst pkg1. rewrite length_store_field; [exact L0|].
    rewrite length_le_split. unfold offsetof_id_hash. lia. }
  assert (L2 : length pkg2 = Z.to_nat (sizeof_StorageFormat T)).
  { subst pkg2. rewrite length_store_field; [exact L1 | lia]. }
  rewrite nth_store_field by (rewrite length_le_split; lia).
  rewrite length_le_split.
  destruct ((Z.to_nat (offsetof_checksum T) <=? i)%nat
            && (i <? Z.to_nat (offsetof_checksum T) + 2)%nat); [reflexivity|].
  subst pkg2. rewrite nth_store_field by lia.
  destruct ((Z.to_nat (offsetof_data T) <=? i)%nat
            && (i <? Z.to_nat (offsetof_data T) + length data)%nat);
    [reflexivity|].
  subst pkg1. rewrite nth_store_field
    by (rewrite length_le_split; unfold offsetof_id_hash; lia).
  rewrite length_le_split. unfold offsetof_id_hash.
  change (Z.to_nat 0) with 0%nat. rewrite Nat.sub_0_r. cbn [Nat.leb andb Nat.add].
  destruct (i <? 2)%nat; [reflexivity|].
  subst pkg0. apply nth_repeat_lt. exact Hi.
Qed.

Lemma length_make_pkg T s (data : list byte) :
  ctype_ok T -> Z.of_nat (length data) = sizeof T ->
  length (FlashStorageClass.make_pkg T s data)
  = Z.to_nat (sizeof_StorageFormat T).
Proof.
  intros HT HL. destruct (layout_order_nat T data HT HL) as (A & B & C & D).
  unfold FlashStorageClass.make_pkg.
  repeat (rewrite length_store_field || rewrite length_le_split
          || rewrite repeat_length);
    unfold offsetof_id_hash; lia.
Qed.

Ltac cases_nat :=
  repeat match goal with
    | |- context [(?a <=? ?b)%nat] => destruct (Nat.leb_spec a b)
    | |- context [(?a <? ?b)%nat] => destruct (Nat.ltb_spec a b)
    end;
  cbn [andb orb negb]; try lia.

Lemma make_pkg_id_hash T s (data : list byte) :
  ctype_ok T -> Z.of_nat (length data) = sizeof T ->
  load_field (FlashStorageClass.make_pkg T s data) offsetof_id_hash 2
  = le_split 2 (variable_hash s).
Proof.
  intros HT HL. destruct (layout_order_nat T data HT HL) as (A & B & C & D).
  apply (nth_ext _ _ Byte.x00 Byte.x00).
  - rewrite length_load_field, length_le_split;
      rewrite ?length_make_pkg by assumption; unfold offsetof_id_hash; lia.
  - intros i Hi. rewrite length_load_field in Hi
      by (rewrite length_make_pkg by assumption; unfold offsetof_id_hash; lia).
    rewrite nth_load_field by exact Hi. unfold offsetof_id_hash.
    change (Z.to_nat 2) with 2%nat in Hi. change (Z.to_nat 0) with 0%nat.
    rewrite nth_make_pkg by (assumption || lia).
    cases_nat. reflexivity.
Qed.

Lemma make_pkg_data T s (data : list byte) :
  ctype_ok T -> Z.of_nat (length data) = sizeof T ->
  load_field (FlashStorageClass.make_pkg T s data) (offsetof_data T) (sizeof T)
  = data.
Proof.
  intros HT HL. destruct (layout_order_nat T data HT HL) as (A & B & C & D).
  apply (nth_ext _ _ Byte.x00 Byte.x00).
  - rewrite length_load_field; rewrite ?length_make_pkg by assumption; lia.
  - intros i Hi. rewrite length_load_field in Hi
      by (rewrite length_make_pkg by assumption; lia).
    rewrite nth_load_field by exact Hi.
    rewrite nth_make_pkg by (assumption || lia).
    cases_nat. f_equal. lia.
Qed.

Lemma make_pkg_checksum T s (data : list byte) :
  ctype_ok T -> Z.of_nat (length data) = sizeof T ->
  load_field (FlashStorageClass.make_pkg T s data) (offsetof_checksum T) 2
  = le_split 2 (FlashStorageClass.calcChecksum data).
Proof.
  intros HT HL. destruct (layout_order_nat T data HT HL) as (A & B & C & D).
  apply (nth_ext _ _ Byte.x00 Byte.x00).
  - rewrite length_load_field, length_le_split;
      rewrite ?length_make_pkg by assumption; lia.
  - intros i Hi. rewrite length_load_field in Hi
      by (rewrite length_make_pkg by assumption; lia).
    rewrite nth_load_field by exact Hi.
    change (Z.to_nat 2) with 2%nat in Hi.
    rewrite nth_make_pkg by (assumption || lia).
    cases_nat. f_equal. lia.
Qed.

(** ** The typed store *)

Lemma checksum_step_range sum b : 0 <= FlashStorageClass.checksum_step sum b < 2 ^ 16.
Proof. unfold FlashStorageClass.checksum_step. apply u16_range. Qed.

Lemma calcChecksum_range data : 0 <= FlashStorageClass.calcChecksum data < 2 ^ 16.
Proof.
  unfold FlashStorageClass.calcChecksum.
  assert (G : forall l s, 0 <= s < 2 ^ 16 ->
              0 <= fold_left FlashStorageClass.checksum_step l s < 2 ^ 16).
  { induction l as [|b l IH]; intros s Hs; cbn [fold_left]; [exact Hs|].
    apply IH, checksum_step_range. }
  apply G. unfold FlashStorageClass.checksum_seed. lia.
Qed.

Lemma le16_roundtrip x : 0 <= x < 2 ^ 16 -> le_combine (le_split 2 x) = x.
Proof.
  intros H. rewrite le_combine_split. apply Z.mod_small.
  change (2 ^ (Z.of_nat 2 * 8)) with (2 ^ 16). exact H.
Qed.

(** Reading back a region that holds the candidate record of [data]. *)
Lemma read_of_stored T s (data : list byte) st :
  ctype_ok T -> Z.of_nat (length data) = sizeof T ->
  0 <= variable_hash s < 2 ^ 16 ->
  FlashClass.read_all (flash s) st
    = Some (Some (FlashStorageClass.make_pkg T s data), st) ->
  FlashStorageClass.read T s st = Some (Some data, st).
Proof.
  intros HT HL Hh Hr. unfold FlashStorageClass.read.
  rewrite (bind_eq _ _ _ _ _ Hr).
  rewrite make_pkg_id_hash, make_pkg_data, make_pkg_checksum by assumption.
  rewrite !le16_roundtrip by (assumption || apply calcChecksum_range).
  rewrite !Z.eqb_refl. reflexivity.
Qed.

(** The whole-region read of a typed store, when it is accepted. *)
Lemma read_all_store p T base vh st :
  let s := FlashStorageClass_new p T base vh in
  FlashClass.read_all (flash s) st =
  if FlashClass.isWithinBounds (flash s) base (u32 (sizeof_StorageFormat T))
  then Some (Some (memcpy_from (mem st) base (u32 (sizeof_StorageFormat T))), st)
  else Some (None, st).
Proof.
  intros s. unfold FlashClass.read_all, FlashClass.read. cbn [flash s
    FlashStorageClass_new FlashClass_new flash_address flash_size].
  destruct (FlashClass.isWithinBounds _ _ _); reflexivity.
Qed.

(** An accepted whole-region access of a typed store does not wrap. *)
Lemma store_region_fits p T base vh :
  ctype_ok T -> is_u32 base ->
  let s := FlashStorageClass_new p T base vh in
  FlashClass.isWithinBounds (flash s) base (u32 (sizeof_StorageFormat T)) = true ->
  base + sizeof_StorageFormat T <= 2 ^ 32.
Proof.
  intros HT Hb s H. pose proof (layout_order T HT) as LO.
  destruct HT as (Hs & Ha & HS).
  assert (SU : u32 (sizeof_StorageFormat T) = sizeof_StorageFormat T)
    by (apply u32_small; unfold is_u32; lia).
  destruct (Z.eq_dec base NULL) as [->|Hnn]; [unfold NULL; lia|].
  rewrite SU in H.
  apply isWithinBounds_sound in H; cbn [flash s FlashStorageClass_new
    FlashClass_new flash_address flash_size]; rewrite ?SU;
    try assumption; try (unfold is_u32 in *; lia).
  destruct H as (_ & _ & H). unfold UINTPTR_MAX in H. lia.
Qed.

(** The two ways [write] returns true: the stored record already equals
    the candidate and nothing is touched, or the region was erased and the
    candidate programmed. *)
Lemma write_true_cases p T s (data : list byte) behind st st' :
  FlashStorageClass.write p T s data behind st = Some (true, st') ->
  let pkg := FlashStorageClass.make_pkg T s data in
  (exists e, FlashClass.read_all (flash s) st = Some (Some e, st) /\
             memcmp_eq pkg e (Z.to_nat (sizeof_StorageFormat T)) = true /\
             st' = st) \/
  (exists r st0 st1,
     FlashClass.read_all (flash s) st = Some (r, st0) /\
     match r with
     | Some e => memcmp_eq pkg e (Z.to_nat (sizeof_StorageFormat T))
     | None => false
     end = false /\
     FlashClass.erase_all p (flash s) st0 = Some (true, st1) /\
     FlashClass.write_all (flash s) (object_at pkg behind) st1 = Some (true, st')).
Proof.
  intros H pkg. unfold FlashStorageClass.write in H. fold pkg in H.
  apply bind_Some in H. destruct H as (r & st0 & Hr & H).
  destruct (match r with
            | Some e => memcmp_eq pkg e (Z.to_nat (sizeof_StorageFormat T))
            | None => false
            end) eqn:E.
  - left. destruct r as [e|]; [|discriminate].
    unfold ret in H. inversion H; subst st'.
    assert (st0 = st).
    { unfold FlashClass.read_all in Hr.
      destruct (read_Some_bounds _ _ _ _ _ _ Hr) as (_ & ? & _). assumption. }
    subst st0. exists e. auto.
  - right. apply bind_Some in H. destruct H as (ok & st1 & He & H).
    destruct ok; [|unfold ret in H; discriminate].
    exists r, st0, st1. auto.
Qed.

Lemma erase_commands_ER l : erase_commands (map CMD_ER l) = map CMD_ER l.
Proof.
  unfold erase_commands. induction l as [|r l IH]; [reflexivity|].
  cbn. f_equal. exact IH.
Qed.

Lemma nth_object_at obj behind i :
  (i < length obj)%nat -> object_at obj behind (Z.of_nat i) = nth i obj Byte.x00.
Proof.
  intros H. unfold object_at.
  destruct (Z.ltb_spec (Z.of_nat i) (Z.of_nat (length obj))); [|lia].
  rewrite Nat2Z.id. reflexivity.
Qed.

(** Erasing the region of a typed store and then programming the candidate
    record leaves exactly that record in the region. *)
Lemma erase_write_stores p T base vh (data : list byte) behind st st1 st' :
  ctype_ok T -> is_u32 base ->
  Z.of_nat (length data) = sizeof T ->
  let s := FlashStorageClass_new p T base vh in
  let pkg := FlashStorageClass.make_pkg T s data in
  let S := sizeof_StorageFormat T in
  FlashClass.erase_all p (flash s) st = Some (true, st1) ->
  FlashClass.write_all (flash s) (object_at pkg behind) st1 = Some (true, st') ->
  FlashClass.isWithinBounds (flash s) base (u32 S) = true /\
  memcpy_from (mem st') base (u32 S) = pkg /\
  erase_commands (trace st') =
    erase_commands (trace st) ++
    map CMD_ER (row_targets base (row_size p) (erase_count S (row_size p))).
Proof.
  intros HT Hb HL s pkg S He Hw.
  pose proof (layout_order T HT) as LO. fold S in LO.
  assert (HS : 0 < S < 2 ^ 31) by (destruct HT as (? & ? & ?); fold S; lia).
  assert (SU : u32 S = S) by (apply u32_small; unfold is_u32; lia).
  assert (Fs : flash s = FlashClass_new p base S).
  { subst s. cbn [flash FlashStorageClass_new]. fold S. rewrite SU. reflexivity. }
  unfold FlashClass.erase_all, FlashClass.write_all in *.
  rewrite Fs in *. cbn [FlashClass_new flash_address flash_size] in He, Hw.
  rewrite SU.
  pose proof (erase_true_bounds _ _ _ _ _ _ He) as B.
  assert (F : base + S <= 2 ^ 32).
  { apply (store_region_fits p T base vh HT Hb).
    change (FlashStorageClass_new p T base vh) with s. fold S.
    rewrite Fs, SU. exact B. }
  split; [exact B|].
  unfold FlashClass.erase in He. rewrite B in He. cbn [negb] in He.
  destruct Hb as [Hb0 Hb1].
  apply erase_rows_true in He;
    [|reflexivity|reflexivity|unfold is_u32; lia|lia].
  destruct He as (Et & Em & _ & ER). destruct ER as (HR & _ & Top); [lia|].
  pose proof (erase_count_covers S (row_size p) HR ltac:(lia)) as Hc.
  pose proof (Z.div_mod (S + 3) 4 ltac:(lia)) as D1.
  pose proof (Z.mod_pos_bound (S + 3) 4 ltac:(lia)) as D2.
  assert (U3 : u32 (S + 3) = S + 3) by (apply u32_small; unfold is_u32; lia).
  apply write_effect in Hw; [|lia|rewrite U3; lia].
  rewrite U3 in Hw. destruct Hw as [Wm Wt].
  split.
  - apply (nth_ext _ _ Byte.x00 Byte.x00).
    + rewrite length_memcpy_from. subst pkg.
      rewrite length_make_pkg by assumption. reflexivity.
    + intros i Hi. rewrite length_memcpy_from in Hi.
      rewrite nth_memcpy_from by exact Hi.
      rewrite u32_small by (unfold is_u32; lia).
      rewrite Wm, Em.
      destruct (Z.leb_spec base (base + Z.of_nat i)); [|lia].
      destruct (Z.ltb_spec (base + Z.of_nat i) (base + 4 * ((S + 3) / 4)));
        [|lia].
      destruct (Z.ltb_spec (base + Z.of_nat i)
                  (base + Z.of_nat (erase_count S (row_size p)) * row_size p));
        [|lia].
      cbn [andb]. rewrite byte_and_erased.
      replace (base + Z.of_nat i - base) with (Z.of_nat i) by lia.
      apply nth_object_at. subst pkg.
      rewrite length_make_pkg by assumption. exact Hi.
  - rewrite Wt, Et, erase_commands_app, erase_commands_ER. reflexivity.
Qed.

(** After a [write] that returned true, the region reads back as the
    candidate record. *)
Lemma write_true_stored p T base vh (data : list byte) behind st st' :
  ctype_ok T -> is_u32 base ->
  Z.of_nat (length data) = sizeof T ->
  let s := FlashStorageClass_new p T base vh in
  FlashStorageClass.write p T s data behind st = Some (true, st') ->
  FlashClass.read_all (flash s) st'
    = Some (Some (FlashStorageClass.make_pkg T s data), st').
Proof.
  intros HT Hb HL s H.
  destruct (write_true_cases p T s data behind st st' H)
    as [(e & Hr & Hc & ->) | (r & st0 & st1 & Hr & _ & He & Hw)].
  - rewrite Hr. do 2 f_equal. f_equal. symmetry.
    unfold FlashClass.read_all in Hr.
    destruct (read_Some_bounds _ _ _ _ _ _ Hr) as (_ & _ & ->).
    assert (SU : u32 (sizeof_StorageFormat T) = sizeof_StorageFormat T).
    { pose proof (layout_order T HT). destruct HT as (? & ? & ?).
      apply u32_small; unfold is_u32; lia. }
    cbn [flash s FlashStorageClass_new FlashClass_new flash_address flash_size]
      in *. rewrite SU in *.
    apply (memcmp_eq_true (Z.to_nat (sizeof_StorageFormat T)));
      [apply length_make_pkg; assumption | apply length_memcpy_from | exact Hc].
  - assert (st0 = st).
    { unfold s in Hr. rewrite read_all_store in Hr.
      destruct (FlashClass.isWithinBounds _ _ _); inversion Hr; reflexivity. }
    subst st0.
    destruct (erase_write_stores p T base vh data behind st st1 st'
                HT Hb HL He Hw) as (B & Hm & _).
    unfold s. rewrite read_all_store. rewrite B, Hm. reflexivity.
Qed.

(** C2.  Write/read round trip.  For every value [v] of type [T] (its
    [sizeof T] bytes): once [write(v)] has returned true, [read] on the
    resulting state returns true and delivers exactly the bytes of [v]. *)
Theorem write_read_roundtrip p T base vh (v : list byte) behind st st' :
  ctype_ok T -> is_u32 base ->
  Z.of_nat (length v) = sizeof T ->
  let s := FlashStorageClass_new p T base vh in
  FlashStorageClass.write p T s v behind st = Some (true, st') ->
  FlashStorageClass.read T s st' = Some (Some v, st').
Proof.
  intros HT Hb HL s H.
  apply read_of_stored; try assumption.
  - apply u16_range.
  - apply (write_true_stored p T base vh v behind st st'); assumption.
Qed.

Lemma uint32_t_ok : ctype_ok uint32_t.
Proof. unfold ctype_ok. repeat split; reflexivity. Defined.

Lemma uint16_t_ok : ctype_ok uint16_t.
Proof. unfold ctype_ok. repeat split; reflexivity. Defined.

Lemma write_read_roundtrip_witness :
  exists st',
    FlashStorageClass.write hw_example uint32_t store_example value_example
      (fun _ => Byte.x00) st_erased = Some (true, st') /\
    FlashStorageClass.read uint32_t store_example st'
      = Some (Some value_example, st').
Proof.
  destruct (run_true (FlashStorageClass.write hw_example uint32_t store_example
                        value_example (fun _ => Byte.x00) st_erased))
    as [st' E]; [vm_compute; reflexivity|].
  exists st'. split; [exact E|].
  refine (write_read_roundtrip hw_example uint32_t 4096 _ value_example
            (fun _ => Byte.x00) st_erased st' uint32_t_ok _ _ E).
  - unfold is_u32. lia.
  - reflexivity.
Defined.

(** C7 (as the code has it).  The on-media record is the object
    representation of [StorageFormat]: the tag at offset 0, the payload at
    the first multiple of [alignof T] from 2 on, the checksum at the first
    even offset after the payload, the size rounded up to a multiple of
    [max 2 (alignof T)].  The candidate record of [write] has that size,
    carries tag, payload and checksum at those offsets, and is zero in every
    byte that belongs to none of the three members (the padding).  After a
    [write] that returned true the [sizeof(StorageFormat)] flash bytes from
    the base of the store are that record, padding included.  The record
    has at least [sizeof T + 4] bytes; it has exactly [sizeof T + 4] bytes
    with the payload at 2 and the checksum at [2 + sizeof T] if and only if
    [alignof T <= 2] and [sizeof T] is even. *)
Theorem StorageFormat_layout T s (v : list byte) :
  ctype_ok T -> Z.of_nat (length v) = sizeof T ->
  let pkg := FlashStorageClass.make_pkg T s v in
  let S := sizeof_StorageFormat T in
  (Z.of_nat (length pkg) = S /\
   load_field pkg offsetof_id_hash 2 = le_split 2 (variable_hash s) /\
   load_field pkg (offsetof_data T) (sizeof T) = v /\
   load_field pkg (offsetof_checksum T) 2
     = le_split 2 (FlashStorageClass.calcChecksum v) /\
   (forall i,
      2 <= i < offsetof_data T \/
      offsetof_data T + sizeof T <= i < offsetof_checksum T \/
      offsetof_checksum T + 2 <= i < S ->
      nth_error pkg (Z.to_nat i) = Some Byte.x00)) /\
  (forall p base vh behind st st',
     is_u32 base -> s = FlashStorageClass_new p T base vh ->
     FlashStorageClass.write p T s v behind st = Some (true, st') ->
     memcpy_from (mem st') base S = pkg) /\
  (2 <= offsetof_data T < 2 + alignof T /\
   offsetof_data T mod alignof T = 0 /\
   offsetof_data T + sizeof T <= offsetof_checksum T
     < offsetof_data T + sizeof T + 2 /\
   offsetof_checksum T mod 2 = 0 /\
   offsetof_checksum T + 2 <= S < offsetof_checksum T + 2 + Z.max 2 (alignof T) /\
   S mod Z.max 2 (alignof T) = 0) /\
  sizeof T + 4 <= S /\
  ((S = sizeof T + 4 /\ offsetof_data T = 2 /\
    offsetof_checksum T = 2 + sizeof T)
   <-> (alignof T <= 2 /\ sizeof T mod 2 = 0)).
Proof.
  intros HT HL pkg S.
  pose proof (layout_order T HT) as LO. fold S in LO.
  destruct (HT) as (Hs & Ha & HS).
  pose proof (align_up_bounds 2 (alignof T) Ha) as A1.
  pose proof (align_up_bounds (offsetof_data T + sizeof T) 2 eq_refl) as A2.
  pose proof (align_up_bounds (offsetof_checksum T + 2)
                (Z.max 2 (alignof T)) ltac:(lia)) as A3.
  fold (offsetof_data T) in A1. fold (offsetof_checksum T) in A2.
  change (align_up (offsetof_checksum T + 2) (Z.max 2 (alignof T)))
    with S in A3.
  split; [|split; [|split; [|split]]].
  - subst pkg. rewrite length_make_pkg by assumption.
    split; [lia|].
    split; [apply make_pkg_id_hash; assumption|].
    split; [apply make_pkg_data; assumption|].
    split; [apply make_pkg_checksum; assumption|].
    intros i Hi.
    assert (Hlt : (Z.to_nat i < Z.to_nat S)%nat) by lia.
    rewrite (nth_error_nth' _ Byte.x00)
      by (rewrite length_make_pkg by assumption; exact Hlt).
    f_equal. rewrite nth_make_pkg by assumption.
    cases_nat; reflexivity.
  - intros p base vh behind st st' Hb -> Hw.
    pose proof (write_true_stored p T base vh v behind st st' HT Hb HL Hw) as Hr.
    rewrite read_all_store in Hr.
    assert (SU : u32 S = S) by (apply u32_small; unfold is_u32; lia).
    fold S in Hr. rewrite SU in Hr.
    destruct (FlashClass.isWithinBounds _ base S); [|discriminate].
    inversion Hr as [Hm]. rewrite Hm. reflexivity.
  - lia.
  - lia.
  - split.
    + intros (E1 & E2 & E3).
      assert (alignof T <= 2).
      { destruct A1 as [_ A1]. apply Z.mod_divide in A1; [|lia].
        destruct A1 as [q Hq]. rewrite E2 in Hq.
        destruct (Z.le_gt_cases (alignof T) 2); [assumption|].
        assert (q <= 0 \/ 1 <= q) as [|] by lia; nia. }
      split; [assumption|].
      destruct A2 as [_ A2]. rewrite E3 in A2.
      rewrite <- A2. replace (2 + sizeof T) with (sizeof T + 1 * 2) by lia.
      symmetry. apply Z.mod_add. lia.
    + intros [E1 E2].
      assert (D : offsetof_data T = 2).
      { unfold offsetof_data. apply align_up_exact; [lia|].
        assert (alignof T = 1 \/ alignof T = 2) as [-> | ->] by lia;
          reflexivity. }
      assert (C : offsetof_checksum T = 2 + sizeof T).
      { unfold offsetof_checksum. rewrite D. apply align_up_exact; [lia|].
        replace (2 + sizeof T) with (sizeof T + 1 * 2) by lia.
        rewrite Z.mod_add by lia. exact E2. }
      split; [|auto].
      unfold S, sizeof_StorageFormat, alignof_StorageFormat.
      rewrite C. replace (Z.max 2 (alignof T)) with 2 by lia.
      rewrite align_up_exact; [lia | lia |].
      replace (2 + sizeof T + 2) with (sizeof T + 2 * 2) by lia.
      rewrite Z.mod_add by lia. exact E2.
Qed.

Lemma StorageFormat_layout_witness :
  (ctype_ok uint16_t /\ Z.of_nat (length [Byte.x34; Byte.x12]) = sizeof uint16_t) /\
  sizeof_StorageFormat uint16_t = sizeof uint16_t + 4 /\
  offsetof_data uint16_t = 2 /\
  offsetof_checksum uint16_t = 2 + sizeof uint16_t.
Proof.
  split; [split; [exact uint16_t_ok | reflexivity]|].
  apply (proj2 (proj2 (proj2 (proj2
    (StorageFormat_layout uint16_t store_example [Byte.x34; Byte.x12]
       uint16_t_ok eq_refl))))).
  split; [cbn; lia | reflexivity].
Defined.

(** C7 as stated fails: for a 4-byte, 4-aligned [T] the payload starts at
    offset 4, the checksum at offset 8, and the record that the store reads
    and writes has 12 bytes, not 8. *)
Lemma StorageFormat_size_counterexample :
  sizeof_StorageFormat uint32_t <> sizeof uint32_t + 4 /\
  offsetof_data uint32_t <> 2 /\
  flash_size (flash store_example) = 12 /\
  FlashStorageClass.make_pkg uint32_t store_example value_example =
    [Byte.xb2; Byte.xc4; Byte.x00; Byte.x00;
     Byte.x01; Byte.x02; Byte.x03; Byte.x04;
     Byte.xaf; Byte.xa5; Byte.x00; Byte.x00].
Proof. vm_compute. repeat split; discriminate. Qed.

(** [write] on a region that already reads back as the candidate record
    returns true and leaves the controller untouched. *)
Lemma write_skips_when_stored p T s (v : list byte) behind st :
  ctype_ok T -> Z.of_nat (length v) = sizeof T ->
  FlashClass.read_all (flash s) st
    = Some (Some (FlashStorageClass.make_pkg T s v), st) ->
  FlashStorageClass.write p T s v behind st = Some (true, st).
Proof.
  intros HT HL Hr. unfold FlashStorageClass.write.
  rewrite (bind_eq _ _ _ _ _ Hr).
  rewrite memcmp_eq_refl; [reflexivity|].
  rewrite length_make_pkg by assumption. lia.
Qed.

(** C3 (as the code has it).  Wear avoidance.  If the region reads back as
    the candidate record, [write] returns true and issues no command at
    all.  Hence, once [write(v)] has returned true, a second [write(v)]
    returns true and leaves controller and flash exactly as the first call
    left them; the two calls together issue the row erases of the first
    call only: none if the record was already stored, otherwise one per row
    of the record, which is exactly one when the record fits in a row. *)
Theorem write_wear_avoidance p T base vh (v : list byte) behind behind' st st1 :
  ctype_ok T -> is_u32 base ->
  Z.of_nat (length v) = sizeof T ->
  let s := FlashStorageClass_new p T base vh in
  let pkg := FlashStorageClass.make_pkg T s v in
  let S := sizeof_StorageFormat T in
  let R := row_size p in
  (FlashClass.read_all (flash s) st = Some (Some pkg, st) ->
   FlashStorageClass.write p T s v behind st = Some (true, st)) /\
  (FlashStorageClass.write p T s v behind st = Some (true, st1) ->
   FlashStorageClass.write p T s v behind' st1 = Some (true, st1) /\
   (FlashClass.read_all (flash s) st = Some (Some pkg, st) ->
    trace st1 = trace st) /\
   (FlashClass.read_all (flash s) st <> Some (Some pkg, st) ->
    erase_commands (trace st1) =
      erase_commands (trace st) ++
      map CMD_ER (row_targets base R (erase_count S R)) /\
    (S <= R -> erase_count S R = 1%nat))).
Proof.
  intros HT Hb HL s pkg S R. split.
  - intros Hr. apply write_skips_when_stored; assumption.
  - intros H. split; [|split].
    + apply write_skips_when_stored; try assumption.
      apply (write_true_stored p T base vh v behind st st1); assumption.
    + intros Hr.
      rewrite (write_skips_when_stored p T s v behind st HT HL Hr) in H.
      inversion H. reflexivity.
    + intros Hn.
      destruct (write_true_cases p T s v behind st st1 H)
        as [(e & Hr & Hc & ->) | (r & st0 & st2 & Hr & _ & He & Hw)].
      * exfalso. apply Hn. rewrite Hr. do 3 f_equal. symmetry.
        unfold FlashClass.read_all in Hr.
        destruct (read_Some_bounds _ _ _ _ _ _ Hr) as (_ & _ & ->).
        assert (SU : u32 S = S).
        { pose proof (layout_order T HT). destruct HT as (? & ? & ?).
          apply u32_small; unfold is_u32; fold S; lia. }
        cbn [flash s FlashStorageClass_new FlashClass_new flash_address
             flash_size] in *. fold S in Hc |- *. rewrite SU in *.
        apply (memcmp_eq_true (Z.to_nat S));
          [apply length_make_pkg; assumption | apply length_memcpy_from
          | exact Hc].
      * assert (st0 = st).
        { unfold s in Hr. rewrite read_all_store in Hr.
          destruct (FlashClass.isWithinBounds _ _ _); inversion Hr; reflexivity. }
        subst st0.
        destruct (erase_write_stores p T base vh v behind st st2 st1
                    HT Hb HL He Hw) as (_ & _ & Ht).
        split; [exact Ht|].
        intros HSR. apply erase_count_last.
        pose proof (layout_order T HT). fold S in H0. lia.
Qed.

Lemma write_wear_avoidance_witness :
  exists st1,
    FlashStorageClass.write hw_example uint32_t store_example value_example
      (fun _ => Byte.x00) st_erased = Some (true, st1) /\
    FlashStorageClass.write hw_example uint32_t store_example value_example
      (fun _ => Byte.xff) st1 = Some (true, st1) /\
    erase_commands (trace st1) = [CMD_ER 4096].
Proof.
  destruct (run_true (FlashStorageClass.write hw_example uint32_t store_example
                        value_example (fun _ => Byte.x00) st_erased))
    as [st1 E]; [vm_compute; reflexivity|].
  exists st1. split; [exact E|].
  assert (Hb : is_u32 4096) by (unfold is_u32; lia).
  destruct (proj2 (write_wear_avoidance hw_example uint32_t 4096
              (FlashStorageInternal.hash_variable "my_flash_store" 4)
              value_example (fun _ => Byte.x00) (fun _ => Byte.xff)
              st_erased st1 uint32_t_ok Hb eq_refl) E)
    as (W2 & _ & W3).
  split; [exact W2|].
  apply W3. vm_compute. discriminate.
Defined.

(** C3 as stated fails: starting from erased flash, the first [write(v)]
    erases once; the second and the third call, two calls in a row with the
    same [v], issue no erase at all rather than exactly one. *)
Lemma write_twice_counterexample :
  exists st1 st2 st3,
    FlashStorageClass.write hw_example uint32_t store_example value_example
      (fun _ => Byte.x00) st_erased = Some (true, st1) /\
    FlashStorageClass.write hw_example uint32_t store_example value_example
      (fun _ => Byte.x00) st1 = Some (true, st2) /\
    FlashStorageClass.write hw_example uint32_t store_example value_example
      (fun _ => Byte.x00) st2 = Some (true, st3) /\
    erase_commands (trace st3) = erase_commands (trace st1).
Proof.
  destruct (run_true (FlashStorageClass.write hw_example uint32_t store_example
                        value_example (fun _ => Byte.x00) st_erased))
    as [st1 E]; [vm_compute; reflexivity|].
  assert (Hb : is_u32 4096) by (unfold is_u32; lia).
  pose proof (write_true_stored hw_example uint32_t 4096
                (FlashStorageInternal.hash_variable "my_flash_store" 4)
                value_example (fun _ => Byte.x00) st_erased st1
                uint32_t_ok Hb eq_refl E) as Hr.
  pose proof (write_skips_when_stored hw_example uint32_t _ value_example
                (fun _ => Byte.x00) st1 uint32_t_ok eq_refl Hr) as W.
  exists st1, st1, st1. repeat split; assumption || reflexivity.
Qed.

(** ** Corruption detection *)

Lemma flip_changes b k : 0 <= k < 8 -> byte.xor b (byte.of_Z (2 ^ k)) <> b.
Proof.
  intros Hk E. apply (f_equal byte.unsigned) in E. unfold byte.xor in E.
  rewrite !byte.unsigned_of_Z in E. unfold byte.wrap in E.
  apply (f_equal (fun z => Z.testbit z k)) in E. cbv beta in E.
  rewrite Z.mod_pow2_bits_low, Z.lxor_spec in E by lia.
  rewrite Z.mod_pow2_bits_low, Z.pow2_bits_true in E by lia.
  destruct (Z.testbit (byte.unsigned b) k); discriminate.
Qed.

Lemma testbit_high x n j : 0 <= x < 2 ^ n -> 0 <= n <= j -> Z.testbit x j = false.
Proof.
  intros Hx Hj. rewrite <- (Z.mod_small x (2 ^ n)) by lia.
  apply Z.mod_pow2_bits_high. lia.
Qed.

(** The mixing step [sum ^= sum >> 8] is injective on 16-bit values. *)
Lemma mix_inj x y :
  0 <= x < 2 ^ 16 -> 0 <= y < 2 ^ 16 ->
  u16 (Z.lxor x (Z.shiftr x 8)) = u16 (Z.lxor y (Z.shiftr y 8)) -> x = y.
Proof.
  intros Hx Hy E. unfold u16 in E.
  assert (B : forall j, 0 <= j < 16 ->
            xorb (Z.testbit x j) (Z.testbit x (j + 8)) =
            xorb (Z.testbit y j) (Z.testbit y (j + 8))).
  { intros j Hj. apply (f_equal (fun z => Z.testbit z j)) in E. cbv beta in E.
    rewrite !Z.mod_pow2_bits_low, !Z.lxor_spec, !Z.shiftr_spec in E by lia.
    exact E. }
  assert (Hi : forall j, 8 <= j -> Z.testbit x j = Z.testbit y j).
  { intros j Hj. destruct (Z.lt_ge_cases j 16) as [Hlt|Hge].
    - specialize (B j ltac:(lia)).
      rewrite (testbit_high x 16 (j + 8)), (testbit_high y 16 (j + 8)) in B
        by lia.
      rewrite !xorb_false_r in B. exact B.
    - rewrite (testbit_high x 16 j), (testbit_high y 16 j) by lia. reflexivity. }
  apply Z.bits_inj'. intros j Hj.
  destruct (Z.lt_ge_cases j 8) as [Hlt|Hge]; [|apply Hi; lia].
  specialize (B j ltac:(lia)). rewrite (Hi (j + 8)) in B by lia.
  destruct (Z.testbit x j), (Z.testbit y j), (Z.testbit y (j + 8));
    cbn in B; congruence.
Qed.

Lemma checksum_step_inj_sum s1 s2 b :
  0 <= s1 < 2 ^ 16 -> 0 <= s2 < 2 ^ 16 ->
  FlashStorageClass.checksum_step s1 b = FlashStorageClass.checksum_step s2 b ->
  s1 = s2.
Proof.
  intros H1 H2 E. unfold FlashStorageClass.checksum_step in E.
  apply mix_inj in E; try apply u16_range.
  unfold u16 in E. pose proof (byte.unsigned_range b) as Hb.
  pose proof (Z.div_mod (s1 + byte.unsigned b) (2 ^ 16) ltac:(lia)).
  pose proof (Z.div_mod (s2 + byte.unsigned b) (2 ^ 16) ltac:(lia)).
  pose proof (Z.mod_pos_bound (s1 + byte.unsigned b) (2 ^ 16) ltac:(lia)).
  pose proof (Z.mod_pos_bound (s2 + byte.unsigned b) (2 ^ 16) ltac:(lia)).
  lia.
Qed.

Lemma checksum_step_inj_byte s b1 b2 :
  FlashStorageClass.checksum_step s b1 = FlashStorageClass.checksum_step s b2 ->
  b1 = b2.
Proof.
  intros E. unfold FlashStorageClass.checksum_step in E.
  apply mix_inj in E; try apply u16_range.
  unfold u16 in E. apply byte.unsigned_inj.
  pose proof (byte.unsigned_range b1). pose proof (byte.unsigned_range b2).
  pose proof (Z.div_mod (s + byte.unsigned b1) (2 ^ 16) ltac:(lia)).
  pose proof (Z.div_mod (s + byte.unsigned b2) (2 ^ 16) ltac:(lia)).
  pose proof (Z.mod_pos_bound (s + byte.unsigned b1) (2 ^ 16) ltac:(lia)).
  pose proof (Z.mod_pos_bound (s + byte.unsigned b2) (2 ^ 16) ltac:(lia)).
  lia.
Qed.

Lemma checksum_fold_range l : forall s,
  0 <= s < 2 ^ 16 ->
  0 <= fold_left FlashStorageClass.checksum_step l s < 2 ^ 16.
Proof.
  induction l as [|b l IH]; intros s Hs; cbn [fold_left]; [exact Hs|].
  apply IH, checksum_step_range.
Qed.

Lemma checksum_fold_inj l : forall s1 s2,
  0 <= s1 < 2 ^ 16 -> 0 <= s2 < 2 ^ 16 ->
  fold_left FlashStorageClass.checksum_step l s1
  = fold_left FlashStorageClass.checksum_step l s2 -> s1 = s2.
Proof.
  induction l as [|b l IH]; intros s1 s2 H1 H2 E; cbn [fold_left] in E;
    [exact E|].
  apply IH in E; try apply checksum_step_range.
  apply (checksum_step_inj_sum s1 s2 b); assumption.
Qed.

(** Changing one payload byte always changes the checksum. *)
Lemma calcChecksum_detects pre b1 b2 post :
  FlashStorageClass.calcChecksum (pre ++ b1 :: post)
  = FlashStorageClass.calcChecksum (pre ++ b2 :: post) ->
  b1 = b2.
Proof.
  unfold FlashStorageClass.calcChecksum. rewrite !fold_left_app.
  cbn [fold_left]. intros E.
  apply checksum_fold_inj in E; try apply checksum_step_range.
  apply checksum_step_inj_byte in E. exact E.
Qed.

(** Two byte strings that differ in exactly one position have different
    checksums, whatever the running sum they start from. *)
Lemma checksum_fold_detects (l : list byte) : forall l' s j,
  length l = length l' -> (j < length l)%nat ->
  (forall i, i <> j -> nth i l Byte.x00 = nth i l' Byte.x00) ->
  nth j l Byte.x00 <> nth j l' Byte.x00 ->
  0 <= s < 2 ^ 16 ->
  fold_left FlashStorageClass.checksum_step l s
  <> fold_left FlashStorageClass.checksum_step l' s.
Proof.
  induction l as [|b t IH]; intros [|b' t'] s j HL Hj Hsame Hdiff Hs;
    cbn [length] in *; try lia.
  cbn [fold_left]. destruct j as [|j].
  - cbn [nth] in Hdiff.
    assert (t = t').
    { apply (nth_ext _ _ Byte.x00 Byte.x00); [lia|].
      intros i _. apply (Hsame (S i)). discriminate. }
    subst t'. intros E.
    apply checksum_fold_inj in E; try apply checksum_step_range.
    apply checksum_step_inj_byte in E. contradiction.
  - assert (b = b') by (apply (Hsame 0%nat); discriminate). subst b'.
    apply (IH t' _ j); try lia.
    + intros i Hi. apply (Hsame (S i)). lia.
    + exact Hdiff.
    + apply checksum_step_range.
Qed.

Lemma read_Some_inv T s st v st' :
  FlashStorageClass.read T s st = Some (Some v, st') ->
  exists pkg,
    FlashClass.read_all (flash s) st = Some (Some pkg, st) /\ st' = st /\
    le_combine (load_field pkg offsetof_id_hash 2) = variable_hash s /\
    le_combine (load_field pkg (offsetof_checksum T) 2)
      = FlashStorageClass.calcChecksum
          (load_field pkg (offsetof_data T) (sizeof T)) /\
    v = load_field pkg (offsetof_data T) (sizeof T).
Proof.
  unfold FlashStorageClass.read. intros H.
  apply bind_Some in H. destruct H as (r & st0 & Hr & H).
  destruct r as [pkg|]; [|unfold ret in H; discriminate].
  assert (st0 = st).
  { unfold FlashClass.read_all in Hr.
    destruct (read_Some_bounds _ _ _ _ _ _ Hr) as (_ & ? & _). assumption. }
  subst st0. exists pkg.
  destruct (Z.eqb_spec (le_combine (load_field pkg offsetof_id_hash 2))
              (variable_hash s)); cbn [negb] in H;
    [|unfold ret in H; discriminate].
  destruct (Z.eqb_spec (le_combine (load_field pkg (offsetof_checksum T) 2))
              (FlashStorageClass.calcChecksum
                 (load_field pkg (offsetof_data T) (sizeof T))));
    cbn [negb] in H; [|unfold ret in H; discriminate].
  unfold ret in H. inversion H; subst.
  repeat split; try assumption; reflexivity.
Qed.

Lemma read_checksum_mismatch T s st pkg :
  FlashClass.read_all (flash s) st = Some (Some pkg, st) ->
  le_combine (load_field pkg (offsetof_checksum T) 2)
    <> FlashStorageClass.calcChecksum
         (load_field pkg (offsetof_data T) (sizeof T)) ->
  FlashStorageClass.read T s st = Some (None, st).
Proof.
  intros Hr Hc. unfold FlashStorageClass.read.
  rewrite (bind_eq _ _ _ _ _ Hr).
  destruct (negb _); [reflexivity|].
  destruct (Z.eqb_spec (le_combine (load_field pkg (offsetof_checksum T) 2))
              (FlashStorageClass.calcChecksum
                 (load_field pkg (offsetof_data T) (sizeof T))));
    [contradiction | reflexivity].
Qed.

Lemma read_tag_mismatch T s st pkg :
  FlashClass.read_all (flash s) st = Some (Some pkg, st) ->
  le_combine (load_field pkg offsetof_id_hash 2) <> variable_hash s ->
  FlashStorageClass.read T s st = Some (None, st).
Proof.
  intros Hr Hc. unfold FlashStorageClass.read.
  rewrite (bind_eq _ _ _ _ _ Hr).
  destruct (Z.eqb_spec (le_combine (load_field pkg offsetof_id_hash 2))
              (variable_hash s)); [contradiction | reflexivity].
Qed.

(** C4.  Corruption detection.  For a store whose region holds a valid
    record ([read] returns true), flipping any one bit of a stored payload
    byte or of a stored checksum byte, behind the driver's back, makes [read]
    return false; [read] does not change the state, so every later [read]
    fails as well. *)
Theorem corruption_detected p T base vh st (v : list byte) a k :
  ctype_ok T -> is_u32 base ->
  let s := FlashStorageClass_new p T base vh in
  FlashStorageClass.read T s st = Some (Some v, st) ->
  (base + offsetof_data T <= a < base + offsetof_data T + sizeof T \/
   base + offsetof_checksum T <= a < base + offsetof_checksum T + 2) ->
  0 <= k < 8 ->
  FlashStorageClass.read T s (flip_bit st a k) = Some (None, flip_bit st a k).
Proof.
  intros HT Hb s Hread Ha Hk.
  pose proof (layout_order T HT) as LO.
  set (S := sizeof_StorageFormat T) in *.
  assert (HS : 0 < S < 2 ^ 31) by (destruct HT as (? & ? & ?); fold S; lia).
  assert (Hsz : 0 < sizeof T) by (destruct HT as (? & ? & ?); assumption).
  assert (SU : u32 S = S) by (apply u32_small; unfold is_u32; lia).
  apply read_Some_inv in Hread.
  destruct Hread as (pkg & Hr & _ & _ & Hc & _).
  unfold s in Hr. rewrite read_all_store in Hr. fold S in Hr. rewrite SU in Hr.
  destruct (FlashClass.isWithinBounds _ base S) eqn:B; [|discriminate].
  assert (F : base + S <= 2 ^ 32).
  { apply (store_region_fits p T base vh HT Hb). fold S. rewrite SU. exact B. }
  inversion Hr as [Hp]. clear Hr.
  set (st' := flip_bit st a k).
  set (pkg' := memcpy_from (mem st') base S).
  assert (Hr' : FlashClass.read_all (flash s) st' = Some (Some pkg', st')).
  { unfold s. rewrite read_all_store. fold S. rewrite SU, B. reflexivity. }
  apply (read_checksum_mismatch T s st' pkg' Hr').
  destruct Hb as [Hb0 Hb1].
  assert (N : forall i d, (i < Z.to_nat S)%nat ->
              nth i pkg' d =
              if base + Z.of_nat i =? a
              then byte.xor (nth i pkg d) (byte.of_Z (2 ^ k))
              else nth i pkg d).
  { intros i d Hi. subst pkg' pkg. rewrite !nth_memcpy_from by exact Hi.
    rewrite u32_small by (unfold is_u32; lia). reflexivity. }
  assert (LP : length pkg = Z.to_nat S)
    by (subst pkg; apply length_memcpy_from).
  assert (LP' : length pkg' = Z.to_nat S) by apply length_memcpy_from.
  destruct Ha as [Ha|Ha].
  - (* a payload byte *)
    assert (C : load_field pkg' (offsetof_checksum T) 2
                = load_field pkg (offsetof_checksum T) 2).
    { apply (nth_ext _ _ Byte.x00 Byte.x00);
        [rewrite !length_load_field by lia; reflexivity|].
      intros i Hi. rewrite length_load_field in Hi by lia.
      rewrite !nth_load_field by exact Hi. rewrite N by lia.
      destruct (Z.eqb_spec (base + Z.of_nat (Z.to_nat (offsetof_checksum T) + i)) a);
        [lia | reflexivity]. }
    rewrite C, Hc. unfold FlashStorageClass.calcChecksum. apply not_eq_sym.
    apply (checksum_fold_detects _ _ _ (Z.to_nat (a - base - offsetof_data T))).
    + rewrite !length_load_field by lia. reflexivity.
    + rewrite length_load_field by lia. lia.
    + intros i Hi.
      destruct (Nat.lt_ge_cases i (Z.to_nat (sizeof T))) as [Hlt|Hge].
      * rewrite !nth_load_field by exact Hlt. rewrite N by lia.
        destruct (Z.eqb_spec (base + Z.of_nat (Z.to_nat (offsetof_data T) + i)) a);
          [lia | reflexivity].
      * rewrite !nth_overflow by (rewrite length_load_field by lia; lia).
        reflexivity.
    + rewrite !nth_load_field by lia. rewrite N by lia.
      destruct (Z.eqb_spec
                  (base + Z.of_nat (Z.to_nat (offsetof_data T)
                                    + Z.to_nat (a - base - offsetof_data T))) a);
        [|lia].
      apply flip_changes. exact Hk.
    + unfold FlashStorageClass.checksum_seed. lia.
  - (* a checksum byte *)
    assert (D : load_field pkg' (offsetof_data T) (sizeof T)
                = load_field pkg (offsetof_data T) (sizeof T)).
    { apply (nth_ext _ _ Byte.x00 Byte.x00);
        [rewrite !length_load_field by lia; reflexivity|].
      intros i Hi. rewrite length_load_field in Hi by lia.
      rewrite !nth_load_field by exact Hi. rewrite N by lia.
      destruct (Z.eqb_spec (base + Z.of_nat (Z.to_nat (offsetof_data T) + i)) a);
        [lia | reflexivity]. }
    rewrite D, <- Hc. intros E.
    apply le_combine_inj in E;
      [|rewrite !length_load_field by lia; reflexivity].
    apply (f_equal (fun l => nth (Z.to_nat (a - base - offsetof_checksum T))
                               l Byte.x00)) in E.
    rewrite !nth_load_field in E by lia. rewrite N in E by lia.
    destruct (Z.eqb_spec
                (base + Z.of_nat (Z.to_nat (offsetof_checksum T)
                                  + Z.to_nat (a - base - offsetof_checksum T))) a);
      [|lia].
    revert E. apply flip_changes. exact Hk.
Qed.

Lemma corruption_detected_witness :
  exists st1,
    FlashStorageClass.write hw_example uint32_t store_example value_example
      (fun _ => Byte.x00) st_erased = Some (true, st1) /\
    FlashStorageClass.read uint32_t store_example st1
      = Some (Some value_example, st1) /\
    FlashStorageClass.read uint32_t store_example (flip_bit st1 4101 3)
      = Some (None, flip_bit st1 4101 3).
Proof.
  destruct (run_true (FlashStorageClass.write hw_example uint32_t store_example
                        value_example (fun _ => Byte.x00) st_erased))
    as [st1 E]; [vm_compute; reflexivity|].
  assert (Hb : is_u32 4096) by (unfold is_u32; lia).
  assert (R : FlashStorageClass.read uint32_t store_example st1
              = Some (Some value_example, st1)).
  { apply read_of_stored; [exact uint32_t_ok | reflexivity | apply u16_range |].
    exact (write_true_stored hw_example uint32_t 4096 _ value_example
             (fun _ => Byte.x00) st_erased st1 uint32_t_ok Hb eq_refl E). }
  exists st1. split; [exact E|]. split; [exact R|].
  refine (corruption_detected hw_example uint32_t 4096 _ st1 value_example
            4101 3 uint32_t_ok Hb R _ _).
  - left. change (offsetof_data uint32_t) with 4.
    change (sizeof uint32_t) with 4. lia.
  - lia.
Defined.

(** ** Identity tags *)

Lemma hash_combine_range h v :
  0 <= FlashStorageInternal.hash_combine h v < 2 ^ 16.
Proof. unfold FlashStorageInternal.hash_combine. apply u16_range. Qed.

(** For a fixed running hash, [hash_combine] is injective in the 16-bit
    value it folds in. *)
Lemma hash_combine_inj_value h v1 v2 :
  0 <= v1 < 2 ^ 16 -> 0 <= v2 < 2 ^ 16 ->
  FlashStorageInternal.hash_combine h v1 = FlashStorageInternal.hash_combine h v2 ->
  v1 = v2.
Proof.
  intros H1 H2 E. unfold FlashStorageInternal.hash_combine, u16 in E.
  set (c := 0x9e37 + Z.shiftl h 6 + Z.shiftr h 2) in *.
  replace (v1 + 40503 + Z.shiftl h 6 + Z.shiftr h 2) with (v1 + c) in E
    by (subst c; lia).
  replace (v2 + 40503 + Z.shiftl h 6 + Z.shiftr h 2) with (v2 + c) in E
    by (subst c; lia).
  assert (M : (v1 + c) mod 2 ^ 16 = (v2 + c) mod 2 ^ 16).
  { apply Z.bits_inj'. intros j Hj.
    destruct (Z.lt_ge_cases j 16) as [Hlt|Hge].
    - apply (f_equal (fun z => Z.testbit z j)) in E. cbv beta in E.
      rewrite !Z.mod_pow2_bits_low, !Z.lxor_spec in E by lia.
      rewrite !Z.mod_pow2_bits_low by lia.
      destruct (Z.testbit h j), (Z.testbit (v1 + c) j),
        (Z.testbit (v2 + c) j); cbn in E; congruence.
    - rewrite !Z.mod_pow2_bits_high by lia. reflexivity. }
  pose proof (Z.div_mod (v1 + c) (2 ^ 16) ltac:(lia)).
  pose proof (Z.div_mod (v2 + c) (2 ^ 16) ltac:(lia)).
  lia.
Qed.

Lemma first_two_bytes m base n n' :
  (2 <= Z.to_nat n)%nat -> (2 <= Z.to_nat n')%nat ->
  load_field (memcpy_from m base n) offsetof_id_hash 2
  = load_field (memcpy_from m base n') offsetof_id_hash 2.
Proof.
  intros H H'. unfold offsetof_id_hash.
  apply (nth_ext _ _ Byte.x00 Byte.x00).
  - rewrite !length_load_field; rewrite ?length_memcpy_from; lia.
  - intros i Hi.
    rewrite length_load_field in Hi by (rewrite length_memcpy_from; lia).
    rewrite !nth_load_field by exact Hi.
    rewrite !nth_memcpy_from by lia. reflexivity.
Qed.

(** Two names whose string hashes differ can still get the same tag once
    the size is folded in. *)
Lemma tags_collide_name_hashes_differ :
  FlashStorageInternal.hash_string "ia" FlashStorageInternal.hash_seed
  <> FlashStorageInternal.hash_string "tv" FlashStorageInternal.hash_seed /\
  FlashStorageInternal.hash_variable "ia" 4
  = FlashStorageInternal.hash_variable "tv" 4.
Proof. vm_compute. split; [discriminate | reflexivity]. Qed.

(** C9 (as the code has it).  Identity isolation.  The tag is a 16-bit
    hash of name and size.  Two stores over the same bytes whose tags
    differ never accept each other's record: after store A has written,
    [read] through store B returns false.  The same name with sizes of [T]
    that differ modulo [2 ^ 16] always gives different tags.  Different
    names give no such guarantee: whatever the two names are, when the tags
    are equal and [T] is the same type, [read] through store B returns true
    with the value written through store A. *)
Theorem identity_isolation p TA TB base nameA nameB (v : list byte) behind st st' :
  ctype_ok TA -> ctype_ok TB -> is_u32 base ->
  Z.of_nat (length v) = sizeof TA ->
  let hA := FlashStorageInternal.hash_variable nameA (sizeof TA) in
  let hB := FlashStorageInternal.hash_variable nameB (sizeof TB) in
  let A := FlashStorageClass_new p TA base hA in
  let B := FlashStorageClass_new p TB base hB in
  (nameA = nameB -> sizeof TA mod 2 ^ 16 <> sizeof TB mod 2 ^ 16 -> hA <> hB) /\
  (hA <> hB ->
   FlashStorageClass.write p TA A v behind st = Some (true, st') ->
   FlashStorageClass.read TB B st' = Some (None, st')) /\
  (hA = hB -> TA = TB ->
   FlashStorageClass.write p TA A v behind st = Some (true, st') ->
   FlashStorageClass.read TB B st' = Some (Some v, st')).
Proof.
  intros HA HB Hb HL hA hB A B. split; [|split].
  - intros -> Hs E. apply Hs.
    apply (hash_combine_inj_value _ _ _ (u16_range _) (u16_range _) E).
  - intros Hne Hw.
    pose proof (write_true_stored p TA base hA v behind st st'
                  HA Hb HL Hw) as Hr.
    fold A in Hr. unfold A in Hr at 1. rewrite read_all_store in Hr.
    destruct (FlashClass.isWithinBounds _ base (u32 (sizeof_StorageFormat TA)));
      [|discriminate].
    inversion Hr as [Hm]. clear Hr.
    pose proof (layout_order TA HA) as LA. pose proof (layout_order TB HB) as LB.
    assert (SA : u32 (sizeof_StorageFormat TA) = sizeof_StorageFormat TA).
    { destruct HA as (? & ? & ?). apply u32_small. unfold is_u32. lia. }
    assert (SB : u32 (sizeof_StorageFormat TB) = sizeof_StorageFormat TB).
    { destruct HB as (? & ? & ?). apply u32_small. unfold is_u32. lia. }
    assert (RB := read_all_store p TB base hB st'). cbv zeta in RB. fold B in RB.
    destruct (FlashClass.isWithinBounds (flash B) base
                (u32 (sizeof_StorageFormat TB))).
    + apply (read_tag_mismatch TB B st' _ RB).
      rewrite (first_two_bytes _ _ _ (u32 (sizeof_StorageFormat TA)))
        by (rewrite ?SA, ?SB; destruct HA as (? & ? & ?);
            destruct HB as (? & ? & ?); lia).
      rewrite Hm. fold A. rewrite make_pkg_id_hash by assumption.
      cbn [variable_hash A B FlashStorageClass_new].
      rewrite le16_roundtrip by apply u16_range.
      rewrite !u16_small by apply hash_combine_range. exact Hne.
    + unfold FlashStorageClass.read. rewrite (bind_eq _ _ _ _ _ RB).
      reflexivity.
  - intros Hh HT Hw. subst B. rewrite <- Hh, <- HT. fold A.
    apply read_of_stored; [exact HA | exact HL | apply u16_range |].
    exact (write_true_stored p TA base hA v behind st st' HA Hb HL Hw).
Qed.

Lemma identity_isolation_witness :
  exists st',
    FlashStorageClass.write hw_example uint32_t
      (FlashStorageClass_new hw_example uint32_t 4096
         (FlashStorageInternal.hash_variable "config" 4))
      value_example (fun _ => Byte.x00) st_erased = Some (true, st') /\
    FlashStorageClass.read uint16_t
      (FlashStorageClass_new hw_example uint16_t 4096
         (FlashStorageInternal.hash_variable "config" 2)) st'
      = Some (None, st').
Proof.
  destruct (run_true (FlashStorageClass.write hw_example uint32_t
              (FlashStorageClass_new hw_example uint32_t 4096
                 (FlashStorageInternal.hash_variable "config" 4))
              value_example (fun _ => Byte.x00) st_erased))
    as [st' E]; [vm_compute; reflexivity|].
  exists st'. split; [exact E|].
  assert (Hb : is_u32 4096) by (unfold is_u32; lia).
  destruct (identity_isolation hw_example uint32_t uint16_t 4096
              "config" "config" value_example (fun _ => Byte.x00)
              st_erased st' uint32_t_ok uint16_t_ok Hb eq_refl)
    as (T1 & T2 & _).
  apply T2; [|exact E].
  apply T1; [reflexivity | vm_compute; discriminate].
Defined.

(** C9 as stated fails: "wifi_calibration" and "gain_calibration" hash to
    the same tag for a 4-byte [T], and the store declared under the second
    name reads the record written under the first as valid. *)
Lemma identity_collision_counterexample :
  "wifi_calibration"%string <> "gain_calibration"%string /\
  FlashStorageInternal.hash_variable "wifi_calibration" 4
  = FlashStorageInternal.hash_variable "gain_calibration" 4 /\
  exists st',
    FlashStorageClass.write hw_example uint32_t
      (FlashStorageClass_new hw_example uint32_t 4096
         (FlashStorageInternal.hash_variable "wifi_calibration" 4))
      value_example (fun _ => Byte.x00) st_erased = Some (true, st') /\
    FlashStorageClass.read uint32_t
      (FlashStorageClass_new hw_example uint32_t 4096
         (FlashStorageInternal.hash_variable "gain_calibration" 4)) st'
      = Some (Some value_example, st').
Proof.
  split; [discriminate|].
  assert (H : FlashStorageInternal.hash_variable "wifi_calibration" 4
              = FlashStorageInternal.hash_variable "gain_calibration" 4)
    by (vm_compute; reflexivity).
  split; [exact H|].
  rewrite <- H.
  destruct (run_true (FlashStorageClass.write hw_example uint32_t
              (FlashStorageClass_new hw_example uint32_t 4096
                 (FlashStorageInternal.hash_variable "wifi_calibration" 4))
              value_example (fun _ => Byte.x00) st_erased))
    as [st' E]; [vm_compute; reflexivity|].
  exists st'. split; [exact E|].
  assert (Hb : is_u32 4096) by (unfold is_u32; lia).
  apply read_of_stored; [exact uint32_t_ok | reflexivity | apply u16_range |].
  exact (write_true_stored hw_example uint32_t 4096 _ value_example
           (fun _ => Byte.x00) st_erased st' uint32_t_ok Hb eq_refl E).
Qed.

(** ** The convenience [read()] *)

Lemma read_default_on_failure T s uninit st st' :
  FlashStorageClass.read T s st = Some (None, st') ->
  FlashStorageClass.read_default T s uninit st = Some (uninit, st').
Proof.
  intros H. unfold FlashStorageClass.read_default.
  rewrite (bind_eq _ _ _ _ _ H). reflexivity.
Qed.

(** C6, at the failing input.  On erased flash the tag check fails, and
    [read()] for a [uint32_t] returns the four bytes its uninitialised local
    happened to hold, here 2A 2A 2A 2A, not the value-default 00 00 00 00. *)
Lemma read_default_returns_uninitialised :
  FlashStorageClass.read uint32_t store_example st_erased = Some (None, st_erased) /\
  FlashStorageClass.read_default uint32_t store_example
    [Byte.x2a; Byte.x2a; Byte.x2a; Byte.x2a] st_erased
  = Some ([Byte.x2a; Byte.x2a; Byte.x2a; Byte.x2a], st_erased) /\
  [Byte.x2a; Byte.x2a; Byte.x2a; Byte.x2a] <> repeat Byte.x00 4.
Proof.
  assert (H : FlashStorageClass.read uint32_t store_example st_erased
              = Some (None, st_erased)) by (vm_compute; reflexivity).
  split; [exact H|]. split; [|discriminate].
  apply read_default_on_failure. exact H.
Qed.

(** * Further properties of the code *)

(** ** Bounds checking, both directions *)

Lemma isWithinBounds_complete f ptr size :
  is_u32 ptr -> is_u32 size -> is_u32 (flash_address f) ->
  0 <= flash_size f ->
  flash_address f + flash_size f <= UINTPTR_MAX ->
  in_bounds f ptr size ->
  FlashClass.isWithinBounds f ptr size = true.
Proof.
  intros Hp Hs Hb HL Htop (H1 & H2 & H3). unfold FlashClass.isWithinBounds.
  destruct ((flash_size f =? 0) || (flash_address f =? NULL)); [reflexivity|].
  unfold UINTPTR_MAX, is_u32 in *.
  rewrite (u32_small ptr), (u32_small (flash_address f))
    by (unfold is_u32; lia).
  rewrite (u32_small (ptr + size)), (u32_small (flash_address f + flash_size f))
    by (unfold is_u32; lia).
  destruct (ptr >? 2 ^ 32 - 1 - size) eqn:E.
  - pose proof (Zgt_cases ptr (2 ^ 32 - 1 - size)) as G. rewrite E in G. lia.
  - apply andb_true_iff. split; [apply Z.geb_le | apply Z.leb_le]; lia.
Qed.

(** X1.  On a region with a non-null base and a length [L > 0] that ends at
    or below [UINTPTR_MAX], the bounds check is exact: every range inside
    the region is accepted, so [read] returns its [size] bytes and, for a
    word-aligned [ptr], [write] returns true. *)
Theorem in_bounds_accepted p base L ptr size src st :
  is_u32 base -> is_u32 ptr -> is_u32 size -> 0 < L ->
  base + L <= UINTPTR_MAX ->
  base <= ptr -> ptr + size <= base + L ->
  let f := FlashClass_new p base L in
  FlashClass.isWithinBounds f ptr size = true /\
  FlashClass.read f ptr size st
    = Some (Some (memcpy_from (mem st) ptr size), st) /\
  (ptr mod 4 = 0 ->
   exists st', FlashClass.write f ptr src size st = Some (true, st')).
Proof.
  intros Hb Hp Hs HL Htop H1 H2 f.
  assert (B : FlashClass.isWithinBounds f ptr size = true).
  { apply isWithinBounds_complete; cbn [f FlashClass_new flash_address flash_size];
      try assumption; try lia.
    unfold in_bounds. cbn [f FlashClass_new flash_address flash_size]. lia. }
  split; [exact B|]. split; [apply read_accepted, B|].
  intros _. apply write_total; [exact B|]. change (4 <= page_size p).
  pose proof (page_size_bounds p). lia.
Qed.

Lemma in_bounds_accepted_witness :
  5000 mod 4 = 0 /\
  FlashClass.isWithinBounds region_example 5000 100 = true /\
  FlashClass.read region_example 5000 100 st_erased
    = Some (Some (memcpy_from (mem st_erased) 5000 100), st_erased) /\
  exists st', FlashClass.write region_example 5000 (fun _ => Byte.x00) 100
                st_erased = Some (true, st').
Proof.
  split; [reflexivity|].
  destruct (in_bounds_accepted hw_example 4096 1024 5000 100
              (fun _ => Byte.x00) st_erased) as (B & R & W);
    try (unfold is_u32, UINTPTR_MAX; lia).
  split; [exact B|]. split; [exact R|]. apply W. reflexivity.
Defined.

(** X2.  On a region with a non-null base and a length [L > 0], a request
    that starts below the base, ends past [base + L] or overflows the
    address width has no effect at all: [read], [write] and [erase] return
    false and leave the controller state, the command trace included, as it
    was. *)
Theorem out_of_bounds_without_effect p base L ptr size src st :
  is_u32 base -> is_u32 L -> is_u32 ptr -> is_u32 size ->
  0 < L -> base <> NULL ->
  ptr < base \/ base + L < ptr + size \/ UINTPTR_MAX < ptr + size ->
  let f := FlashClass_new p base L in
  FlashClass.read f ptr size st = Some (None, st) /\
  FlashClass.write f ptr src size st = Some (false, st) /\
  FlashClass.erase p f ptr size st = Some (false, st).
Proof.
  intros Hb HL Hp Hs Hpos Hnn Hout f.
  assert (B : FlashClass.isWithinBounds f ptr size = false).
  { destruct (FlashClass.isWithinBounds f ptr size) eqn:E; [|reflexivity].
    apply isWithinBounds_sound in E; try assumption.
    unfold in_bounds in E. cbn [f FlashClass_new flash_address flash_size] in E.
    lia. }
  unfold FlashClass.read, FlashClass.write, FlashClass.erase.
  rewrite B. cbn [negb]. repeat split; reflexivity.
Qed.

Lemma out_of_bounds_without_effect_witness :
  FlashClass.read region_example 5000 200 st_erased = Some (None, st_erased) /\
  FlashClass.write region_example 5000 (fun _ => Byte.x00) 200 st_erased
    = Some (false, st_erased) /\
  FlashClass.erase hw_example region_example 5000 200 st_erased
    = Some (false, st_erased).
Proof.
  apply (out_of_bounds_without_effect hw_example 4096 1024 5000 200
           (fun _ => Byte.x00) st_erased);
    unfold is_u32, NULL, UINTPTR_MAX; lia.
Defined.

(** ** Row erase: effect, failure and success *)

Lemma erase_count_upper n R :
  0 < R -> 0 <= n -> Z.of_nat (erase_count n R) * R < n + R.
Proof.
  intros HR Hn. unfold erase_count.
  pose proof (Z.div_mod n R ltac:(lia)) as E.
  pose proof (Z.mod_pos_bound n R HR) as B.
  assert (0 <= n / R) by (apply Z.div_pos; lia).
  destruct (Z.ltb_spec 0 (n mod R)); rewrite Z2Nat.id by lia; nia.
Qed.

(** X3.  A successful [erase(ptr, n)] sets whole rows to 0xFF: every byte
    from [ptr] up to the end of the last started row, which may lie up to
    [R - 1] bytes past [ptr + n], reads 0xFF afterwards; every other flash
    byte and the page buffer are unchanged. *)
Theorem erase_effect p base L ptr n st st' :
  is_u32 ptr -> 0 <= n ->
  let f := FlashClass_new p base L in
  FlashClass.erase p f ptr n st = Some (true, st') ->
  let R := ROW_SIZE f in
  let e := ptr + Z.of_nat (erase_count n R) * R in
  (forall x, ptr <= x < e -> mem st' x = erased) /\
  (forall x, ~ ptr <= x < e -> mem st' x = mem st x) /\
  (0 < n -> ptr + n <= e < ptr + n + R) /\
  (n = 0 -> e = ptr) /\
  page_buffer st' = page_buffer st.
Proof.
  intros Hp Hn f H R e.
  unfold FlashClass.erase in H.
  destruct (FlashClass.isWithinBounds f ptr n); cbn [negb] in H;
    [|unfold ret in H; discriminate].
  apply erase_rows_true in H; try assumption; try reflexivity.
  destruct H as (_ & Hm & Hb & Hal).
  change (row_size p) with R in Hm, Hal. fold e in Hm.
  split; [|split; [|split; [|split]]].
  - intros x Hx. rewrite Hm. cases_Z. reflexivity.
  - intros x Hx. rewrite Hm. cases_Z; reflexivity.
  - intros Hpos. destruct (Hal Hpos) as (HR & _ & _). subst e.
    pose proof (erase_count_covers n R HR Hn).
    pose proof (erase_count_upper n R HR Hn). lia.
  - intros ->. subst e. rewrite erase_count_0. lia.
  - exact Hb.
Qed.

Lemma erase_effect_witness :
  exists st',
    FlashClass.erase hw_example region_example 4096 600 st_erased
      = Some (true, st') /\
    mem st' 4863 = erased /\ page_buffer st' = page_buffer st_erased.
Proof.
  destruct (run_true (FlashClass.erase hw_example region_example 4096 600
                        st_erased)) as [st' E]; [vm_compute; reflexivity|].
  exists st'. split; [exact E|].
  destruct (erase_effect hw_example 4096 1024 4096 600 st_erased st')
    as (A & _ & _ & _ & B); [unfold is_u32; lia | lia | exact E |].
  split; [|exact B].
  apply A. change (erase_count 600 (ROW_SIZE (FlashClass_new hw_example 4096 1024)))
    with 3%nat.
  change (ROW_SIZE (FlashClass_new hw_example 4096 1024)) with 256. lia.
Defined.

Lemma erase_misaligned p f ptr n st :
  0 < ROW_SIZE f -> 0 < n ->
  u32 ptr mod ROW_SIZE f <> 0 ->
  FlashClass.erase p f ptr n st = Some (false, st).
Proof.
  intros HR Hn Hal.
  assert (E : FlashClass.erase_row p f ptr st = Some (false, st)).
  { unfold FlashClass.erase_row.
    destruct (Z.eqb_spec (ROW_SIZE f) 0); [lia|].
    destruct (Z.eqb_spec (u32 ptr mod ROW_SIZE f) 0); [contradiction|].
    reflexivity. }
  unfold FlashClass.erase.
  destruct (negb (FlashClass.isWithinBounds f ptr n)); [reflexivity|].
  destruct (Z.to_nat (n / ROW_SIZE f)) as [|fuel] eqn:F;
    cbn [FlashClass.erase_rows]; rewrite !Z.gtb_ltb.
  - destruct (Z.ltb_spec (ROW_SIZE f) n) as [Hgt|Hle].
    + exfalso. assert (1 <= n / ROW_SIZE f)
        by (apply Z.div_le_lower_bound; lia). lia.
    + destruct (Z.ltb_spec 0 n); [exact E | lia].
  - destruct (Z.ltb_spec (ROW_SIZE f) n) as [Hgt|Hle].
    + rewrite (bind_eq _ _ _ _ _ E). reflexivity.
    + destruct (Z.ltb_spec 0 n); [exact E | lia].
Qed.

(** X4.  [erase(ptr, n)] with [n > 0] at an address that is not row-aligned
    returns false without issuing any command or changing the state,
    whatever the bounds of the region. *)
Theorem erase_misaligned_without_effect p f ptr n st :
  0 < ROW_SIZE f -> 0 < n ->
  u32 ptr mod ROW_SIZE f <> 0 ->
  FlashClass.erase p f ptr n st = Some (false, st).
Proof. apply erase_misaligned. Qed.

Lemma erase_misaligned_without_effect_witness :
  FlashClass.erase hw_example region_example 4100 16 st_erased
  = Some (false, st_erased).
Proof.
  apply (erase_misaligned_without_effect hw_example region_example 4100 16
           st_erased).
  - change (0 < 256). lia.
  - lia.
  - vm_compute. discriminate.
Defined.

Lemma erase_rows_false p f fuel : forall ptr size st st',
  PAGE_SIZE f = page_size p -> ROW_SIZE f = row_size p ->
  FlashClass.erase_rows p f fuel ptr size st = Some (false, st') ->
  is_u32 ptr -> 0 <= size ->
  let R := row_size p in
  exists j, (j < erase_count size R)%nat /\
    trace st' = trace st ++ map CMD_ER (row_targets ptr R j) /\
    (forall x, mem st' x =
               if (ptr <=? x) && (x <? ptr + Z.of_nat j * R)
               then erased else mem st x) /\
    page_buffer st' = page_buffer st.
Proof.
  assert (Last : forall ptr size st st',
    ROW_SIZE f = row_size p -> 0 <= size -> size <= row_size p ->
    (if size >? 0 then FlashClass.erase_row p f ptr else ret true) st
      = Some (false, st') ->
    exists j, (j < erase_count size (row_size p))%nat /\
      trace st' = trace st ++ map CMD_ER (row_targets ptr (row_size p) j) /\
      (forall x, mem st' x =
                 if (ptr <=? x) && (x <? ptr + Z.of_nat j * row_size p)
                 then erased else mem st x) /\
      page_buffer st' = page_buffer st).
  { intros ptr size st st' HR Hs Hle H.
    rewrite Z.gtb_ltb in H. destruct (Z.ltb_spec 0 size) as [Hpos|Hz];
      [|unfold ret in H; discriminate].
    assert (HR0 : 0 < row_size p) by lia.
    apply erase_row_false in H. subst st'. exists 0%nat.
    rewrite erase_count_last by lia. cbn [row_targets seq map].
    rewrite app_nil_r. repeat split; try lia.
    intros x. cases_Z; reflexivity. }
  induction fuel as [|fuel IH]; intros ptr size st st' HP HR H Hp Hs R;
    cbn [FlashClass.erase_rows] in H; rewrite HR, Z.gtb_ltb in H; fold R in H.
  - destruct (Z.ltb_spec R size); [discriminate|]. apply Last; assumption.
  - destruct (Z.ltb_spec R size) as [Hgt|Hle]; [|apply Last; assumption].
    apply bind_Some in H. destruct H as (ok & st1 & He & Hk).
    destruct ok; cbn [negb] in Hk.
    + pose proof (erase_row_no_wrap p f ptr st st1 HP HR He) as NW.
      apply erase_row_true in He; [|exact HR].
      rewrite u32_small in He, NW by exact Hp.
      destruct He as (E1 & E2 & E3 & E4 & E5). fold R in E1, E2, E3, NW.
      rewrite ?HR in Hk. fold R in Hk. destruct Hp as [Hp0 Hp1].
      apply IH in Hk; try assumption; try (unfold is_u32; lia).
      destruct Hk as (j & K0 & K1 & K2 & K3). fold R in K0, K1, K2.
      exists (S j). rewrite erase_count_step by lia. rewrite row_targets_S.
      repeat split; try lia.
      * rewrite K1, E5, <- app_assoc. reflexivity.
      * intros x. rewrite K2, E3. unfold erase_range.
        rewrite Nat2Z.inj_succ. cases_Z; reflexivity.
      * congruence.
    + unfold ret in Hk. inversion Hk; subst st'.
      assert (HR0 : 0 < R).
      { pose proof (row_size_nonneg p). fold R in H.
        destruct (Z.eq_dec R 0) as [Z0|]; [|lia].
        unfold FlashClass.erase_row in He. rewrite HR in He. fold R in He.
        rewrite Z0 in He. discriminate. }
      apply erase_row_false in He. subst st1. exists 0%nat.
      rewrite erase_count_step by lia. cbn [row_targets seq map].
      rewrite app_nil_r. repeat split; try lia.
      intros x. cases_Z; reflexivity.
Qed.

(** X5.  A failed [erase] is not atomic.  When [erase(ptr, n)] returns
    false, the rows it erased before the failing one stay erased: for some
    [j] not larger than the number of rows of the request, exactly the
    [j] rows at [ptr], [ptr + R], ... were erased, in that order, and every
    other flash byte is unchanged. *)
Theorem erase_failure_partial p base L ptr n st st' :
  is_u32 ptr -> 0 <= n ->
  let f := FlashClass_new p base L in
  FlashClass.erase p f ptr n st = Some (false, st') ->
  let R := ROW_SIZE f in
  exists j, (j <= erase_count n R)%nat /\
    trace st' = trace st ++ map CMD_ER (row_targets ptr R j) /\
    (forall x, ptr <= x < ptr + Z.of_nat j * R -> mem st' x = erased) /\
    (forall x, ~ ptr <= x < ptr + Z.of_nat j * R -> mem st' x = mem st x).
Proof.
  intros Hp Hn f H R. unfold FlashClass.erase in H.
  destruct (FlashClass.isWithinBounds f ptr n); cbn [negb] in H.
  - apply erase_rows_false in H; try assumption; try reflexivity.
    destruct H as (j & K0 & K1 & K2 & _). change (row_size p) with R in *.
    exists j. repeat split; try lia; try exact K1.
    + intros x Hx. rewrite K2. cases_Z. reflexivity.
    + intros x Hx. rewrite K2. cases_Z; reflexivity.
  - unfold ret in H. inversion H; subst st'. exists 0%nat.
    cbn [row_targets seq map]. rewrite app_nil_r.
    split; [lia|]. split; [reflexivity|].
    split; intros x Hx; [lia | reflexivity].
Qed.

Lemma erase_failure_partial_witness :
  exists st',
    FlashClass.erase hw_example (FlashClass_new hw_example NULL 0)
      261888 600 st_erased = Some (false, st') /\
    exists j, (j <= 3)%nat /\
      trace st' = trace st_erased ++ map CMD_ER (row_targets 261888 256 j).
Proof.
  destruct (FlashClass.erase hw_example (FlashClass_new hw_example NULL 0)
              261888 600 st_erased) as [[[] st']|] eqn:E.
  - exfalso.
    assert (C : option_map fst (FlashClass.erase hw_example
                  (FlashClass_new hw_example NULL 0) 261888 600 st_erased)
                = Some false) by (vm_compute; reflexivity).
    rewrite E in C. discriminate.
  - exists st'. split; [reflexivity|].
    destruct (erase_failure_partial hw_example NULL 0 261888 600 st_erased st')
      as (j & K0 & K1 & _); [unfold is_u32; lia | lia | exact E |].
    exists j. split; [exact K0 | exact K1].
  - exfalso.
    assert (C : option_map fst (FlashClass.erase hw_example
                  (FlashClass_new hw_example NULL 0) 261888 600 st_erased)
                = Some false) by (vm_compute; reflexivity).
    rewrite E in C. discriminate.
Defined.

Lemma erase_row_ok p f ptr st :
  PAGE_SIZE f = page_size p -> ROW_SIZE f = row_size p ->
  0 < row_size p -> u32 ptr mod row_size p = 0 ->
  u32 ptr < flash_size_bytes p ->
  exists st', FlashClass.erase_row p f ptr st = Some (true, st').
Proof.
  intros HP HR HR0 Hal Hlt. unfold FlashClass.erase_row. rewrite HR, HP.
  destruct (Z.eqb_spec (row_size p) 0); [lia|].
  destruct (Z.eqb_spec (u32 ptr mod row_size p) 0); [|contradiction].
  cbn [negb]. fold (flash_size_bytes p).
  destruct (Z.geb_spec (u32 ptr) (flash_size_bytes p)); [lia|].
  unfold bind, nvm_set_ADDR, nvm_ER, ret. eexists. reflexivity.
Qed.

Lemma erase_rows_ok p f fuel : forall ptr size st,
  PAGE_SIZE f = page_size p -> ROW_SIZE f = row_size p ->
  0 < row_size p -> is_u32 ptr -> ptr mod row_size p = 0 ->
  0 <= size -> ptr + size <= flash_size_bytes p ->
  (Z.to_nat (size / row_size p) <= fuel)%nat ->
  exists st', FlashClass.erase_rows p f fuel ptr size st = Some (true, st').
Proof.
  assert (Hfsb : is_u32 (flash_size_bytes p)).
  { unfold flash_size_bytes. destruct (target p); apply u32_range. }
  induction fuel as [|fuel IH]; intros ptr size st HP HR HR0 Hp Hal Hs Hin Hf;
    cbn [FlashClass.erase_rows]; rewrite HR, !Z.gtb_ltb.
  - destruct (Z.ltb_spec (row_size p) size) as [Hgt|Hle].
    + exfalso. assert (1 <= size / row_size p)
        by (apply Z.div_le_lower_bound; lia). lia.
    + destruct (Z.ltb_spec 0 size); [|eexists; reflexivity].
      apply erase_row_ok; try assumption; rewrite u32_small by exact Hp;
        [exact Hal | lia].
  - destruct (Z.ltb_spec (row_size p) size) as [Hgt|Hle].
    + destruct (erase_row_ok p f ptr st HP HR HR0) as [st1 E];
        try (rewrite u32_small by exact Hp); [exact Hal | lia |].
      rewrite (bind_eq _ _ _ _ _ E). cbn [negb].
      unfold is_u32 in *.
      apply IH; try assumption; try (unfold is_u32; lia).
      * replace (ptr + row_size p) with (ptr + 1 * row_size p) by lia.
        rewrite Z.mod_add by lia. exact Hal.
      * replace size with (size - row_size p + 1 * row_size p) in Hf by lia.
        rewrite Z.div_add in Hf by lia.
        assert (0 <= (size - row_size p) / row_size p)
          by (apply Z.div_pos; lia). lia.
    + destruct (Z.ltb_spec 0 size); [|eexists; reflexivity].
      apply erase_row_ok; try assumption; rewrite u32_small by exact Hp;
        [exact Hal | lia].
Qed.

(** X6.  [erase(ptr, n)] succeeds whenever the bounds check accepts the
    range, [ptr] is row-aligned and the range lies inside the implemented
    flash that the descriptor register reports. *)
Theorem erase_succeeds p base L ptr n st :
  is_u32 ptr -> 0 <= n ->
  let f := FlashClass_new p base L in
  FlashClass.isWithinBounds f ptr n = true ->
  0 < ROW_SIZE f -> ptr mod ROW_SIZE f = 0 ->
  ptr + n <= flash_size_bytes p ->
  exists st', FlashClass.erase p f ptr n st = Some (true, st').
Proof.
  intros Hp Hn f B HR Hal Hin. unfold FlashClass.erase. rewrite B.
  cbn [negb]. apply erase_rows_ok; try assumption; try reflexivity.
Qed.

Lemma erase_succeeds_witness :
  exists st', FlashClass.erase hw_example region_example 4352 700 st_erased
              = Some (true, st').
Proof.
  apply (erase_succeeds hw_example 4096 1024 4352 700 st_erased).
  - unfold is_u32. lia.
  - lia.
  - reflexivity.
  - change (0 < 256). lia.
  - reflexivity.
  - change (flash_size_bytes hw_example) with 262144. lia.
Defined.

(** ** Page programming: commands and degenerate sizes *)

Lemma page_count_0 wpp : 0 < wpp -> page_count 0 wpp = 0%nat.
Proof.
  intros H. unfold page_count. rewrite Z.div_small by lia. reflexivity.
Qed.

Lemma page_count_step words wpp :
  0 < wpp -> 0 < words ->
  page_count words wpp
  = S (page_count (words - Z.of_nat (Nat.min (Z.to_nat wpp) (Z.to_nat words))) wpp).
Proof.
  intros Hw Hs. unfold page_count.
  destruct (Z.le_gt_cases words wpp) as [Hle|Hgt].
  - replace (Z.of_nat (Nat.min (Z.to_nat wpp) (Z.to_nat words))) with words
      by lia.
    replace (words - words + wpp - 1) with (wpp - 1) by lia.
    rewrite (Z.div_small (wpp - 1)) by lia.
    replace (words + wpp - 1) with (words - 1 + 1 * wpp) by lia.
    rewrite Z.div_add by lia. rewrite Z.div_small by lia. reflexivity.
  - replace (Z.of_nat (Nat.min (Z.to_nat wpp) (Z.to_nat words))) with wpp
      by lia.
    replace (words + wpp - 1) with (words - wpp + wpp - 1 + 1 * wpp) by lia.
    rewrite Z.div_add by lia.
    assert (0 <= (words - wpp + wpp - 1) / wpp) by (apply Z.div_pos; lia).
    lia.
Qed.

Lemma write_pages_trace f fuel : forall src dst so size st st',
  FlashClass.write_pages f fuel src dst so size st = Some (tt, st') ->
  0 <= size -> 4 <= PAGE_SIZE f ->
  trace st' = trace st ++ page_commands (page_count size (PAGE_SIZE f / 4)).
Proof.
  assert (Hw : 4 <= PAGE_SIZE f -> 0 < PAGE_SIZE f / 4).
  { intros H. assert (1 <= PAGE_SIZE f / 4)
      by (apply Z.div_le_lower_bound; lia). lia. }
  induction fuel as [|fuel IH]; intros src dst so size st st' H Hs HP;
    cbn [FlashClass.write_pages] in H.
  - destruct (Z.eqb_spec size 0) as [->|]; [|discriminate].
    inversion H; subst. rewrite page_count_0 by auto.
    cbn. rewrite app_nil_r. reflexivity.
  - destruct (Z.eqb_spec size 0) as [->|Hne].
    { inversion H; subst. rewrite page_count_0 by auto.
      cbn. rewrite app_nil_r. reflexivity. }
    unfold bind at 1 in H. cbn [nvm_PBC] in H.
    unfold bind at 1 in H. rewrite fill_page_buffer_spec in H by lia.
    cbn [mem page_buffer ADDR trace app fst snd] in H.
    unfold bind at 1 in H. cbn [nvm_WP mem page_buffer ADDR trace] in H.
    apply IH in H; try lia. cbn [trace] in H.
    rewrite H, (page_count_step size) by (auto || lia).
    unfold page_commands. cbn [repeat concat].
    rewrite <- !app_assoc. reflexivity.
Qed.

(** X7.  A successful [write] of [size] bytes issues, per page-sized chunk
    of the [(size + 3) / 4] words, one page-buffer clear followed by one
    page write, [ceil(words / (PAGE_SIZE / 4))] rounds in all, and no other
    command; in particular it never erases. *)
Theorem write_commands p base L ptr src size st st' :
  let f := FlashClass_new p base L in
  FlashClass.write f ptr src size st = Some (true, st') ->
  trace st' = trace st ++
    page_commands (page_count (u32 (size + 3) / 4) (PAGE_SIZE f / 4)).
Proof.
  intros f H. unfold FlashClass.write in H.
  destruct (FlashClass.isWithinBounds f ptr size); cbn [negb] in H;
    [|unfold ret in H; discriminate].
  apply bind_Some in H. destruct H as ([] & st1 & Hw & Hr).
  inversion Hr; subst st1.
  apply write_pages_trace in Hw; [exact Hw | |].
  - apply Z.div_pos; [apply u32_range | lia].
  - change (4 <= page_size p). pose proof (page_size_bounds p). lia.
Qed.

Lemma write_commands_witness :
  exists st',
    FlashClass.write region_example 4096 (fun _ => Byte.x00) 100 st_erased
      = Some (true, st') /\
    trace st' = [CMD_PBC; CMD_WP; CMD_PBC; CMD_WP].
Proof.
  destruct (run_true (FlashClass.write region_example 4096 (fun _ => Byte.x00)
                        100 st_erased)) as [st' E]; [vm_compute; reflexivity|].
  exists st'. split; [exact E|].
  exact (write_commands hw_example 4096 1024 4096 (fun _ => Byte.x00) 100
           st_erased st' E).
Defined.

(** X8.  Degenerate sizes.  When the bounds check accepts the range, a
    [write] of size 0 returns true with no command issued and no byte
    programmed, and so does a [write] whose size lies within 3 of [2 ^ 32]:
    [size + 3] wraps and the word count becomes zero, so the page loop is
    not entered and the flash array, the page buffer and the command trace
    are as before although true is returned.  An [erase] of size 0 returns
    true in the same way, at any address.  (The write-mode and
    cache-control bits that [write] sets before its loop are not part of
    the controller state here.) *)
Theorem degenerate_sizes p base L ptr src size st :
  is_u32 size ->
  let f := FlashClass_new p base L in
  FlashClass.isWithinBounds f ptr size = true ->
  (size = 0 \/ 2 ^ 32 - 3 <= size ->
   u32 (size + 3) / 4 = 0 /\
   exists st', FlashClass.write f ptr src size st = Some (true, st') /\
     trace st' = trace st /\ page_buffer st' = page_buffer st /\
     forall x, mem st' x = mem st x) /\
  (size = 0 ->
   exists st', FlashClass.erase p f ptr size st = Some (true, st') /\
     trace st' = trace st /\ page_buffer st' = page_buffer st /\
     forall x, mem st' x = mem st x).
Proof.
  intros Hs f B. split.
  - intros Hz.
    assert (E : u32 (size + 3) / 4 = 0).
    { unfold is_u32 in Hs. destruct Hz as [->|Hbig]; [reflexivity|].
      unfold u32. replace (size + 3) with (size + 3 - 2 ^ 32 + 1 * 2 ^ 32) by lia.
      rewrite Z.mod_add by lia. rewrite Z.mod_small by lia.
      apply Z.div_small. lia. }
    split; [exact E|]. exists st.
    unfold FlashClass.write. rewrite B. cbn [negb].
    rewrite E. repeat split; reflexivity.
  - intros ->. exists st. unfold FlashClass.erase. rewrite B. cbn [negb].
    rewrite Zdiv_0_l. cbn [Z.to_nat FlashClass.erase_rows].
    rewrite !Z.gtb_ltb. pose proof (row_size_nonneg p).
    destruct (Z.ltb_spec (ROW_SIZE f) 0) as [Hneg|];
      [exfalso|repeat split; reflexivity].
    change (ROW_SIZE f) with (row_size p) in Hneg. lia.
Qed.

Lemma degenerate_sizes_witness :
  is_u32 4294967295 /\
  exists st',
    FlashClass.write (FlashClass_new hw_example NULL 0) 4096
      (fun _ => Byte.x00) 4294967295 st_erased = Some (true, st') /\
    trace st' = trace st_erased /\ forall x, mem st' x = mem st_erased x.
Proof.
  assert (Hs : is_u32 4294967295) by (unfold is_u32; lia).
  split; [exact Hs|].
  destruct (proj1 (degenerate_sizes hw_example NULL 0 4096
                     (fun _ => Byte.x00) 4294967295 st_erased Hs eq_refl))
    as (_ & st' & E & Ht & _ & Hm); [right; lia|].
  exists st'. auto.
Defined.

(** X19.  What a successful [write(ptr, src, size)] does to the flash
    array.  Let [n = 4 * (((size + 3) mod 2 ^ 32) / 4)], four times the
    word count the code computes in 32-bit arithmetic.  If [ptr] is
    non-negative and [[ptr, ptr + n)] does not run past the top of the
    32-bit address space, every flash byte of [[ptr, ptr + n)] becomes the
    AND of its old content and the source byte at the same offset (hence
    the source byte itself where the flash was erased), and no flash byte
    outside [[ptr, ptr + n)] is modified; the controller is the one
    described above, which commits every latched byte at the address it
    was stored to.  For [size <= 2 ^ 32 - 4], [n] is
    [size] rounded up to a multiple of four; for a larger [size] the sum
    wraps and [n = 0]. *)
Theorem write_programs_whole_words f ptr src size st st' :
  FlashClass.write f ptr src size st = Some (true, st') ->
  let n := 4 * (u32 (size + 3) / 4) in
  0 <= ptr -> ptr + n <= 2 ^ 32 ->
  (forall x, ptr <= x < ptr + n ->
     mem st' x = byte.and (mem st x) (src (x - ptr))) /\
  (forall x, ptr <= x < ptr + n -> mem st x = erased ->
     mem st' x = src (x - ptr)) /\
  (forall x, ~ ptr <= x < ptr + n -> mem st' x = mem st x) /\
  (0 <= size <= 2 ^ 32 - 4 -> size <= n < size + 4 /\ n mod 4 = 0) /\
  (2 ^ 32 - 4 < size < 2 ^ 32 -> n = 0).
Proof.
  intros H n Hp Hw.
  destruct (write_effect f ptr src size st st' H Hp Hw) as [Hm _].
  fold n in Hm.
  assert (In1 : forall x, ptr <= x < ptr + n ->
                mem st' x = byte.and (mem st x) (src (x - ptr))).
  { intros x Hx. rewrite Hm. cases_Z; reflexivity. }
  split; [exact In1|]. split; [|split; [|split]].
  - intros x Hx He. rewrite In1, He by exact Hx. apply byte_and_erased.
  - intros x Hx. rewrite Hm. cases_Z; reflexivity.
  - intros Hs. subst n. rewrite u32_small by (unfold is_u32; lia).
    pose proof (Z.div_mod (size + 3) 4 ltac:(lia)) as E.
    pose proof (Z.mod_pos_bound (size + 3) 4 ltac:(lia)) as B.
    split; [lia|]. rewrite Z.mul_comm. apply Z.mod_mul. lia.
  - intros Hs. subst n. unfold u32.
    replace (size + 3) with (size + 3 - 2 ^ 32 + 1 * 2 ^ 32) by lia.
    rewrite Z.mod_add by lia. rewrite Z.mod_small by lia.
    rewrite Z.div_small by lia. reflexivity.
Qed.

Lemma write_programs_whole_words_witness :
  exists st',
    FlashClass.write region_example 4096 (fun _ => Byte.x2a) 5 st_erased
      = Some (true, st') /\
    mem st' 4103 = Byte.x2a /\ mem st' 4104 = erased.
Proof.
  destruct (run_true (FlashClass.write region_example 4096 (fun _ => Byte.x2a)
                        5 st_erased)) as [st' E]; [vm_compute; reflexivity|].
  exists st'. split; [exact E|].
  assert (H1 : 0 <= 4096) by lia.
  assert (H2 : 4096 + 4 * (u32 (5 + 3) / 4) <= 2 ^ 32)
    by (change (u32 (5 + 3) / 4) with 2; lia).
  pose proof (write_programs_whole_words region_example 4096
                (fun _ => Byte.x2a) 5 st_erased st' E H1 H2) as (_ & A & B & _).
  split.
  - apply A; [change (u32 (5 + 3) / 4) with 2; lia | reflexivity].
  - apply B. change (u32 (5 + 3) / 4) with 2. lia.
Defined.

(** ** The raw driver, end to end *)

(** X9.  Raw round trip.  After a successful [erase(ptr, n)] followed by a
    successful [write(ptr, src, n)], [read(ptr, n)] returns true and
    delivers exactly the first [n] bytes of [src]. *)
Theorem erase_write_read p base L ptr src n st st1 st2 :
  is_u32 ptr -> 0 <= n ->
  let f := FlashClass_new p base L in
  FlashClass.erase p f ptr n st = Some (true, st1) ->
  FlashClass.write f ptr src n st1 = Some (true, st2) ->
  FlashClass.read f ptr n st2
  = Some (Some (map (fun i => src (Z.of_nat i)) (seq 0 (Z.to_nat n))), st2).
Proof.
  intros Hp Hn f He Hw.
  pose proof (write_true_bounds _ _ _ _ _ _ Hw) as B.
  rewrite (read_accepted f ptr n st2 B). do 3 f_equal.
  unfold memcpy_from. apply map_ext_in. intros i Hi. apply in_seq in Hi.
  unfold FlashClass.erase in He. rewrite B in He. cbn [negb] in He.
  apply erase_rows_true in He; try assumption; try reflexivity.
  destruct He as (_ & Em & _ & Hal).
  destruct Hal as (HR & _ & Top); [lia|].
  pose proof (erase_count_covers n (row_size p) HR Hn) as Hc.
  destruct Hp as [Hp0 Hp1].
  assert (U3 : u32 (n + 3) = n + 3) by (apply u32_small; unfold is_u32; lia).
  pose proof (Z.div_mod (n + 3) 4 ltac:(lia)) as D1.
  pose proof (Z.mod_pos_bound (n + 3) 4 ltac:(lia)) as D2.
  apply write_effect in Hw; [|lia|rewrite U3; lia].
  rewrite U3 in Hw. destruct Hw as [Wm _].
  rewrite u32_small by (unfold is_u32; lia).
  rewrite Wm, Em.
  destruct (Z.leb_spec ptr (ptr + Z.of_nat i)); [|lia].
  destruct (Z.ltb_spec (ptr + Z.of_nat i) (ptr + 4 * ((n + 3) / 4))); [|lia].
  destruct (Z.ltb_spec (ptr + Z.of_nat i)
              (ptr + Z.of_nat (erase_count n (row_size p)) * row_size p));
    [|lia].
  cbn [andb]. rewrite byte_and_erased. f_equal. lia.
Qed.

Lemma erase_write_read_witness :
  exists st1 st2,
    FlashClass.erase hw_example region_example 4096 6 st_erased
      = Some (true, st1) /\
    FlashClass.write region_example 4096 (fun i => byte.of_Z (i + 1)) 6 st1
      = Some (true, st2) /\
    FlashClass.read region_example 4096 6 st2
    = Some (Some [Byte.x01; Byte.x02; Byte.x03; Byte.x04; Byte.x05; Byte.x06],
            st2).
Proof.
  destruct (run_true (FlashClass.erase hw_example region_example 4096 6
                        st_erased)) as [st1 E1]; [vm_compute; reflexivity|].
  destruct (write_total region_example 4096 (fun i => byte.of_Z (i + 1)) 6 st1)
    as [st2 E2]; [reflexivity | change (4 <= 64); lia |].
  exists st1, st2. split; [exact E1|]. split; [exact E2|].
  refine (erase_write_read hw_example 4096 1024 4096 _ 6 st_erased st1 st2
            _ _ E1 E2); [unfold is_u32; lia | lia].
Defined.

(** ** The typed store: failure and success *)

(** X10.  A region that was erased and never written does not read as
    valid: if every byte of the record is 0xFF and the store's tag is not
    0xFFFF, [read] returns false and leaves the state as it is. *)
Theorem read_erased_fails p T base vh st :
  ctype_ok T -> is_u32 base ->
  let s := FlashStorageClass_new p T base vh in
  (forall x, base <= x < base + sizeof_StorageFormat T -> mem st x = erased) ->
  variable_hash s <> 65535 ->
  FlashStorageClass.read T s st = Some (None, st).
Proof.
  intros HT Hb s Her Hne.
  pose proof (layout_order T HT) as LO.
  set (S := sizeof_StorageFormat T) in *.
  assert (HS : 0 < S < 2 ^ 31) by (destruct HT as (? & ? & ?); fold S; lia).
  assert (Hsz : 0 < sizeof T) by (destruct HT as (? & ? & ?); assumption).
  assert (SU : u32 S = S) by (apply u32_small; unfold is_u32; lia).
  pose proof (read_all_store p T base vh st) as RA. cbv zeta in RA.
  fold s S in RA. rewrite SU in RA.
  destruct (FlashClass.isWithinBounds (flash s) base S) eqn:B.
  - assert (F : base + S <= 2 ^ 32).
    { apply (store_region_fits p T base vh HT Hb). fold s S. rewrite SU.
      exact B. }
    apply (read_tag_mismatch T s st _ RA).
    assert (E : load_field (memcpy_from (mem st) base S) offsetof_id_hash 2
                = [erased; erased]).
    { apply (nth_ext _ _ Byte.x00 Byte.x00).
      - rewrite length_load_field; rewrite ?length_memcpy_from;
          unfold offsetof_id_hash; cbn [length]; lia.
      - intros i Hi. rewrite length_load_field in Hi
          by (rewrite length_memcpy_from; unfold offsetof_id_hash; lia).
        change (Z.to_nat 2) with 2%nat in Hi.
        rewrite nth_load_field by exact Hi. unfold offsetof_id_hash.
        rewrite nth_memcpy_from by lia. destruct Hb as [Hb0 Hb1].
        rewrite u32_small by (unfold is_u32; lia).
        rewrite Her by lia.
        destruct i as [|[|i]]; [reflexivity | reflexivity | lia]. }
    rewrite E. intros C. apply Hne. rewrite <- C. reflexivity.
  - unfold FlashStorageClass.read. rewrite (bind_eq _ _ _ _ _ RA). reflexivity.
Qed.

Lemma read_erased_fails_witness :
  FlashStorageClass.read uint32_t store_example st_erased
  = Some (None, st_erased).
Proof.
  apply (read_erased_fails hw_example uint32_t 4096
           (FlashStorageInternal.hash_variable "my_flash_store" 4) st_erased
           uint32_t_ok).
  - unfold is_u32. lia.
  - intros x Hx. reflexivity.
  - vm_compute. discriminate.
Defined.

(** X11.  The convenience form after a successful write: once [write(v)]
    has returned true, [read()] returns [v], whatever the uninitialised
    local held, and leaves the state as it is. *)
Theorem read_default_after_write p T base vh (v : list byte) behind uninit st st' :
  ctype_ok T -> is_u32 base ->
  Z.of_nat (length v) = sizeof T ->
  let s := FlashStorageClass_new p T base vh in
  FlashStorageClass.write p T s v behind st = Some (true, st') ->
  FlashStorageClass.read_default T s uninit st' = Some (v, st').
Proof.
  intros HT Hb HL s H.
  assert (R : FlashStorageClass.read T s st' = Some (Some v, st')).
  { apply read_of_stored; try assumption; [apply u16_range|].
    apply (write_true_stored p T base vh v behind st st'); assumption. }
  unfold FlashStorageClass.read_default. rewrite (bind_eq _ _ _ _ _ R).
  reflexivity.
Qed.

Lemma read_default_after_write_witness :
  exists st',
    FlashStorageClass.write hw_example uint32_t store_example value_example
      (fun _ => Byte.x00) st_erased = Some (true, st') /\
    FlashStorageClass.read_default uint32_t store_example
      [Byte.x2a; Byte.x2a; Byte.x2a; Byte.x2a] st' = Some (value_example, st').
Proof.
  destruct (run_true (FlashStorageClass.write hw_example uint32_t store_example
                        value_example (fun _ => Byte.x00) st_erased))
    as [st' E]; [vm_compute; reflexivity|].
  exists st'. split; [exact E|].
  refine (read_default_after_write hw_example uint32_t 4096 _ value_example
            (fun _ => Byte.x00) _ st_erased st' uint32_t_ok _ _ E).
  - unfold is_u32. lia.
  - reflexivity.
Defined.

Lemma store_flash p T base vh :
  ctype_ok T ->
  flash (FlashStorageClass_new p T base vh)
  = FlashClass_new p base (sizeof_StorageFormat T).
Proof.
  intros HT. pose proof (layout_order T HT). destruct HT as (? & ? & ?).
  cbn [flash FlashStorageClass_new]. rewrite u32_small; [reflexivity|].
  unfold is_u32. lia.
Qed.

(** X12.  A store whose base is not row-aligned cannot be written: unless
    the region already holds the candidate record, [write(v)] returns false
    and leaves the controller and the flash as they were. *)
Theorem write_misaligned_fails p T base vh (v : list byte) behind st :
  ctype_ok T -> is_u32 base ->
  Z.of_nat (length v) = sizeof T ->
  let s := FlashStorageClass_new p T base vh in
  0 < row_size p -> base mod row_size p <> 0 ->
  FlashClass.read_all (flash s) st
    <> Some (Some (FlashStorageClass.make_pkg T s v), st) ->
  FlashStorageClass.write p T s v behind st = Some (false, st).
Proof.
  intros HT Hb HL s HR Hal Hn.
  pose proof (layout_order T HT) as LO.
  assert (HS : 0 < sizeof_StorageFormat T < 2 ^ 31)
    by (destruct HT as (? & ? & ?); lia).
  assert (SU : u32 (sizeof_StorageFormat T) = sizeof_StorageFormat T)
    by (apply u32_small; unfold is_u32; lia).
  pose proof (read_all_store p T base vh st) as RA. cbv zeta in RA. fold s in RA.
  unfold FlashStorageClass.write.
  assert (E : FlashClass.erase_all p (flash s) st = Some (false, st)).
  { unfold FlashClass.erase_all, s. rewrite store_flash by exact HT.
    cbn [FlashClass_new flash_address flash_size].
    apply erase_misaligned; cbn [FlashClass_new ROW_SIZE]; try lia.
    rewrite u32_small by exact Hb. exact Hal. }
  destruct (FlashClass.isWithinBounds (flash s) base
              (u32 (sizeof_StorageFormat T))).
  - rewrite (bind_eq _ _ _ _ _ RA).
    destruct (memcmp_eq _ _ _) eqn:C.
    + exfalso. apply Hn. rewrite RA. do 3 f_equal. symmetry.
      rewrite SU in *.
      apply (memcmp_eq_true (Z.to_nat (sizeof_StorageFormat T)));
        [apply length_make_pkg; assumption | apply length_memcpy_from
        | exact C].
    + rewrite (bind_eq _ _ _ _ _ E). reflexivity.
  - rewrite (bind_eq _ _ _ _ _ RA). rewrite (bind_eq _ _ _ _ _ E). reflexivity.
Qed.

Lemma write_misaligned_fails_witness :
  FlashStorageClass.write hw_example uint32_t
    (FlashStorageClass_new hw_example uint32_t 4100 7) value_example
    (fun _ => Byte.x00) st_erased = Some (false, st_erased).
Proof.
  apply (write_misaligned_fails hw_example uint32_t 4100 7 value_example
           (fun _ => Byte.x00) st_erased uint32_t_ok).
  - unfold is_u32. lia.
  - reflexivity.
  - change (0 < 256). lia.
  - vm_compute. discriminate.
  - vm_compute. discriminate.
Defined.

Lemma erase_succeeds_aux p base n st :
  is_u32 base -> 0 <= n ->
  FlashClass.isWithinBounds (FlashClass_new p base n) base n = true ->
  0 < row_size p -> base mod row_size p = 0 ->
  base + n <= flash_size_bytes p ->
  exists st', FlashClass.erase p (FlashClass_new p base n) base n st
              = Some (true, st').
Proof.
  intros Hb Hn B HR Hal Hin. unfold FlashClass.erase. rewrite B.
  cbn [negb]. apply erase_rows_ok; try assumption; try reflexivity.
Qed.

Lemma write_succeeds_aux p T base vh (v : list byte) behind st :
  ctype_ok T -> is_u32 base ->
  Z.of_nat (length v) = sizeof T ->
  let s := FlashStorageClass_new p T base vh in
  0 < row_size p -> base mod row_size p = 0 ->
  base + sizeof_StorageFormat T <= flash_size_bytes p ->
  exists st',
    FlashStorageClass.write p T s v behind st = Some (true, st') /\
    FlashStorageClass.read T s st' = Some (Some v, st').
Proof.
  intros HT Hb HL s HR Hal Hin.
  pose proof (layout_order T HT) as LO.
  assert (HS : 0 < sizeof_StorageFormat T < 2 ^ 31)
    by (destruct HT as (? & ? & ?); lia).
  assert (Hfsb : is_u32 (flash_size_bytes p)).
  { unfold flash_size_bytes. destruct (target p); apply u32_range. }
  assert (B : FlashClass.isWithinBounds
                (FlashClass_new p base (sizeof_StorageFormat T)) base
                (sizeof_StorageFormat T) = true).
  { destruct (Z.eq_dec base NULL) as [->|Hnn].
    - apply isWithinBounds_unbounded. right. reflexivity.
    - unfold is_u32, UINTPTR_MAX in *.
      apply isWithinBounds_complete;
        cbn [FlashClass_new flash_address flash_size];
        unfold is_u32, in_bounds, UINTPTR_MAX;
        cbn [FlashClass_new flash_address flash_size]; lia. }
  assert (W : exists st', FlashStorageClass.write p T s v behind st
                          = Some (true, st')).
  { unfold FlashStorageClass.write.
    pose proof (read_all_store p T base vh st) as RA. cbv zeta in RA.
    fold s in RA.
    destruct (FlashClass.isWithinBounds (flash s) base
                (u32 (sizeof_StorageFormat T)));
      rewrite (bind_eq _ _ _ _ _ RA);
      try (destruct (memcmp_eq _ _ _); [eexists; reflexivity|]).
    all: unfold FlashClass.erase_all, FlashClass.write_all, s;
      rewrite store_flash by exact HT;
      cbn [FlashClass_new flash_address flash_size].
    all: destruct (erase_succeeds_aux p base (sizeof_StorageFormat T) st)
           as [st1 E1]; try assumption; try lia.
    all: rewrite (bind_eq _ _ _ _ _ E1).
    all: apply write_total; [exact B|]; change (4 <= page_size p);
      pose proof (page_size_bounds p); lia. }
  destruct W as [st' W]. exists st'. split; [exact W|].
  apply read_of_stored; try assumption; [apply u16_range|].
  apply (write_true_stored p T base vh v behind st st'); assumption.
Qed.

(** X13.  A store that is placed properly works: if the base is row-aligned
    and the record lies inside the implemented flash, [write(v)] returns
    true from any state, and [read] then returns [v]. *)
Theorem write_succeeds p T base vh (v : list byte) behind st :
  ctype_ok T -> is_u32 base ->
  Z.of_nat (length v) = sizeof T ->
  let s := FlashStorageClass_new p T base vh in
  0 < row_size p -> base mod row_size p = 0 ->
  base + sizeof_StorageFormat T <= flash_size_bytes p ->
  exists st',
    FlashStorageClass.write p T s v behind st = Some (true, st') /\
    FlashStorageClass.read T s st' = Some (Some v, st').
Proof. apply write_succeeds_aux. Qed.

Lemma write_succeeds_witness :
  exists st',
    FlashStorageClass.write hw_example uint32_t store_example value_example
      (fun _ => Byte.x00) st_erased = Some (true, st') /\
    FlashStorageClass.read uint32_t store_example st'
      = Some (Some value_example, st').
Proof.
  apply (write_succeeds hw_example uint32_t 4096 _ value_example
           (fun _ => Byte.x00) st_erased uint32_t_ok).
  - unfold is_u32. lia.
  - reflexivity.
  - change (0 < 256). lia.
  - reflexivity.
  - change (4096 + 12 <= 262144). lia.
Defined.

(** X17.  The alignment of the [FlashStorage] macro is what makes its store
    writable: when the row size divides the macro's alignment, a store
    declared by the macro over an array at an address with that alignment,
    inside the implemented flash, accepts [write(v)] from any state and
    [read] then returns [v]. *)
Theorem FlashStorage_macro_store_works p T name data (v : list byte) behind st :
  ctype_ok T -> is_u32 data ->
  Z.of_nat (length v) = sizeof T ->
  0 < row_size p -> macro_alignment p mod row_size p = 0 ->
  data mod macro_alignment p = 0 ->
  data + sizeof_StorageFormat T <= flash_size_bytes p ->
  let s := FlashStorage p T name data in
  exists st',
    FlashStorageClass.write p T s v behind st = Some (true, st') /\
    FlashStorageClass.read T s st' = Some (Some v, st').
Proof.
  intros HT Hd HL HR HAR Hal Hin s.
  apply write_succeeds_aux; try assumption.
  assert (HA : 0 < macro_alignment p)
    by (unfold macro_alignment; destruct (target p); lia).
  apply Z.mod_divide in HAR; [|lia]. destruct HAR as [t Ht].
  apply Z.mod_divide in Hal; [|lia]. destruct Hal as [q Hq].
  apply Z.mod_divide; [lia|]. exists (q * t). rewrite Hq, Ht. ring.
Qed.

Lemma FlashStorage_macro_store_works_witness :
  exists st',
    FlashStorageClass.write hw_example uint32_t
      (FlashStorage hw_example uint32_t "my_flash_store" 4096) value_example
      (fun _ => Byte.x00) st_erased = Some (true, st') /\
    FlashStorageClass.read uint32_t
      (FlashStorage hw_example uint32_t "my_flash_store" 4096) st'
      = Some (Some value_example, st').
Proof.
  apply (FlashStorage_macro_store_works hw_example uint32_t "my_flash_store"
           4096 value_example (fun _ => Byte.x00) st_erased uint32_t_ok).
  - unfold is_u32. lia.
  - reflexivity.
  - change (0 < 256). lia.
  - reflexivity.
  - reflexivity.
  - change (4096 + 12 <= 262144). lia.
Defined.

(** ** Record layout and the block the macro reserves *)

Lemma StorageFormat_size_aligned_aux T :
  0 < sizeof T -> 2 <= alignof T -> alignof T mod 2 = 0 ->
  sizeof T mod alignof T = 0 ->
  offsetof_data T = alignof T /\
  offsetof_checksum T = alignof T + sizeof T /\
  sizeof_StorageFormat T = sizeof T + 2 * alignof T.
Proof.
  intros Hs Ha He Hd.
  apply Z.mod_divide in He; [|lia]. destruct He as [h Hh].
  apply Z.mod_divide in Hd; [|lia]. destruct Hd as [u Hu].
  assert (D : offsetof_data T = alignof T).
  { unfold offsetof_data.
    destruct (align_up_bounds 2 (alignof T) ltac:(lia)) as [B M].
    apply Z.mod_divide in M; [|lia]. destruct M as [q Hq].
    assert (q = 1) by nia. lia. }
  assert (C : offsetof_checksum T = alignof T + sizeof T).
  { unfold offsetof_checksum. rewrite D. apply align_up_exact; [lia|].
    apply Z.mod_divide; [lia|]. exists (h + u * h). lia. }
  split; [exact D|]. split; [exact C|].
  unfold sizeof_StorageFormat, alignof_StorageFormat. rewrite C.
  replace (Z.max 2 (alignof T)) with (alignof T) by lia.
  destruct (align_up_bounds (alignof T + sizeof T + 2) (alignof T) ltac:(lia))
    as [B M].
  apply Z.mod_divide in M; [|lia]. destruct M as [q Hq].
  assert (q = u + 2) by nia. nia.
Qed.

(** X14.  For a [T] with an even alignment [a >= 2] that divides its size,
    the record layout has a closed form: the payload sits at offset [a], the
    checksum at offset [a + sizeof T], and the record has
    [sizeof T + 2 * a] bytes. *)
Theorem StorageFormat_size_aligned T :
  0 < sizeof T -> 2 <= alignof T -> alignof T mod 2 = 0 ->
  sizeof T mod alignof T = 0 ->
  offsetof_data T = alignof T /\
  offsetof_checksum T = alignof T + sizeof T /\
  sizeof_StorageFormat T = sizeof T + 2 * alignof T.
Proof. apply StorageFormat_size_aligned_aux. Qed.

Lemma StorageFormat_size_aligned_witness :
  offsetof_data uint32_t = 4 /\ offsetof_checksum uint32_t = 4 + 4 /\
  sizeof_StorageFormat uint32_t = 4 + 2 * 4.
Proof.
  apply (StorageFormat_size_aligned uint32_t); cbn [sizeof alignof uint32_t];
    try lia; reflexivity.
Defined.

Lemma FlashStorage_reserved_bounds p T :
  0 < sizeof T < 2 ^ 31 ->
  let A := macro_alignment p in
  sizeof T + 4 <= FlashStorage_reserved p T < sizeof T + 4 + A /\
  FlashStorage_reserved p T mod A = 0.
Proof.
  intros Hs A.
  assert (HA : A = 256 \/ A = 8192)
    by (unfold A, macro_alignment; destruct (target p); auto).
  unfold FlashStorage_reserved. fold A.
  destruct (align_up_bounds (sizeof T + 4) A ltac:(lia)) as [B M].
  assert (E : u32 (u32 (u32 (sizeof T + 4) + (A - 1)) / A * A)
              = align_up (sizeof T + 4) A).
  { unfold align_up in *.
    rewrite (u32_small (sizeof T + 4)) by (unfold is_u32; lia).
    rewrite (u32_small (sizeof T + 4 + (A - 1))) by (unfold is_u32; lia).
    replace (sizeof T + 4 + (A - 1)) with (sizeof T + 4 + A - 1) by lia.
    apply u32_small. unfold is_u32. lia. }
  rewrite E. split; assumption.
Qed.

(** X15.  The [FlashStorage] macro reserves [sizeof T + 4] bytes rounded up
    to its alignment [A], while the store reads, erases and writes
    [sizeof(StorageFormat)] bytes.  For a [T] with an even alignment
    [a >= 2] that divides both its size and [A], the record fits the
    reserved block if and only if [a = 2] or [sizeof T + a] is not a
    multiple of [A]; otherwise its last [a] bytes lie past the block. *)
Theorem FlashStorage_block_fits p T :
  0 < sizeof T < 2 ^ 31 ->
  2 <= alignof T -> alignof T mod 2 = 0 ->
  sizeof T mod alignof T = 0 ->
  macro_alignment p mod alignof T = 0 ->
  (sizeof_StorageFormat T <= FlashStorage_reserved p T
   <-> (alignof T = 2 \/ (sizeof T + alignof T) mod macro_alignment p <> 0)) /\
  (sizeof_StorageFormat T <= FlashStorage_reserved p T \/
   sizeof_StorageFormat T = FlashStorage_reserved p T + alignof T).
Proof.
  intros Hs Ha He Hd HA.
  destruct (StorageFormat_size_aligned_aux T) as (_ & _ & ES);
    try assumption; try lia.
  destruct (FlashStorage_reserved_bounds p T Hs) as [B M]. cbv zeta in B, M.
  set (A := macro_alignment p) in *. set (a := alignof T) in *.
  set (r := FlashStorage_reserved p T) in *.
  assert (HA0 : 0 < A) by (unfold A, macro_alignment; destruct (target p); lia).
  pose proof He as He'.
  apply Z.mod_divide in He'; [|lia]. destruct He' as [h Hh].
  apply Z.mod_divide in Hd; [|lia]. destruct Hd as [u Hu].
  apply Z.mod_divide in HA; [|lia]. destruct HA as [t Ht].
  pose proof M as M'.
  apply Z.mod_divide in M'; [|lia]. destruct M' as [q Hq].
  assert (Hd1 : 1 <= t * q - u) by nia.
  assert (Hr : r = sizeof T + (t * q - u) * a) by nia.
  rewrite ES.
  destruct (Z.eq_dec a 2) as [E2|Hn2].
  { split; [split; [intros _; left; exact E2 | intros _; lia] | left; lia]. }
  assert (Ha4 : 4 <= a) by lia.
  assert (Key : (sizeof T + a) mod A = 0 <-> t * q - u = 1).
  { split.
    - intros Z0. apply Z.mod_divide in Z0; [|lia]. destruct Z0 as [k Hk].
      assert (q < k + 1) by nia. assert (k - 1 < q) by nia. nia.
    - intros E1. apply Z.mod_divide; [lia|]. exists q. nia. }
  split.
  - split.
    + intros Hfit. right. intros Z0. apply Key in Z0. nia.
    + intros [E2 | Hnz]; [contradiction|].
      assert (t * q - u <> 1) by (intros E1; apply Hnz, Key, E1). nia.
  - destruct (Z.eq_dec (t * q - u) 1) as [E1|N1].
    + right. nia.
    + left. nia.
Qed.

Lemma FlashStorage_block_fits_witness :
  sizeof_StorageFormat {| sizeof := 252; alignof := 4 |} = 260 /\
  FlashStorage_reserved hw_example {| sizeof := 252; alignof := 4 |} = 256 /\
  ~ sizeof_StorageFormat {| sizeof := 252; alignof := 4 |}
    <= FlashStorage_reserved hw_example {| sizeof := 252; alignof := 4 |}.
Proof.
  split; [reflexivity|]. split; [reflexivity|].
  intros Hfit.
  destruct (proj1 (proj1 (FlashStorage_block_fits hw_example
                     {| sizeof := 252; alignof := 4 |}
                     ltac:(cbn; lia) ltac:(cbn; lia) eq_refl eq_refl eq_refl))
              Hfit) as [E | N].
  - cbn in E. discriminate.
  - apply N. reflexivity.
Defined.

(** ** The checksum *)

(** X16.  The checksum tells apart any two payloads that differ in exactly
    one byte, whatever the other bytes are and wherever the byte sits. *)
Theorem checksum_single_byte pre b1 b2 post :
  b1 <> b2 ->
  FlashStorageClass.calcChecksum (pre ++ b1 :: post)
  <> FlashStorageClass.calcChecksum (pre ++ b2 :: post).
Proof.
  intros Hne E. apply Hne. apply (calcChecksum_detects pre b1 b2 post E).
Qed.

Lemma checksum_single_byte_witness :
  FlashStorageClass.calcChecksum ([Byte.x01] ++ Byte.x02 :: [Byte.x03])
  <> FlashStorageClass.calcChecksum ([Byte.x01] ++ Byte.xfe :: [Byte.x03]).
Proof.
  apply (checksum_single_byte [Byte.x01] Byte.x02 Byte.xfe [Byte.x03]).
  discriminate.
Defined.

(** ** A row size of zero *)

(** X18.  The constructor can compute a row size of zero, and then [erase]
    divides by it.  In the SAMD51 build [ROW_SIZE] is
    [PAGE_SIZE * NVMP / 64], which is zero exactly when the descriptor
    gives fewer than 64 bytes of pages; in the SAMD21 build [ROW_SIZE] is
    four pages, at least 32.  With [ROW_SIZE = 0] every accepted [erase] of
    a positive size enters its loop and calls the single-row erase, whose
    alignment test [addr % ROW_SIZE] has no defined result, however many
    rounds the loop is given. *)
Theorem erase_zero_row_size p base L ptr size st :
  let f := FlashClass_new p base L in
  (target p = SAMD21 -> 32 <= ROW_SIZE f) /\
  (ROW_SIZE f = 0 <->
   target p = SAMD51 /\ page_size p * (NVMP p mod 2 ^ 16) < 64) /\
  (ROW_SIZE f = 0 -> 0 < size ->
   FlashClass.erase_row p f ptr st = None /\
   (forall fuel, FlashClass.erase_rows p f fuel ptr size st = None) /\
   (FlashClass.isWithinBounds f ptr size = true ->
    FlashClass.erase p f ptr size st = None)).
Proof.
  intros f. change (ROW_SIZE f) with (row_size p).
  pose proof (page_size_bounds p) as [PB _].
  split; [|split].
  - intros Ht. rewrite (row_size_SAMD21 p Ht). lia.
  - unfold row_size. destruct (target p) eqn:Ht.
    + split; [|intros [? _]; discriminate].
      intros H. exfalso. unfold u32 in H.
      rewrite Z.mod_small in H by lia. lia.
    + pose proof (Z.mod_pos_bound (NVMP p) (2 ^ 16) ltac:(lia)) as NB.
      assert (U : u32 (page_size p * (NVMP p mod 2 ^ 16))
                  = page_size p * (NVMP p mod 2 ^ 16)).
      { apply u32_small. unfold is_u32. nia. }
      rewrite U. split.
      * intros H. split; [reflexivity|].
        destruct (Z.lt_ge_cases (page_size p * (NVMP p mod 2 ^ 16)) 64)
          as [|Hge]; [assumption|].
        assert (1 <= page_size p * (NVMP p mod 2 ^ 16) / 64)
          by (apply Z.div_le_lower_bound; lia).
        lia.
      * intros [_ H]. apply Z.div_small. nia.
  - intros HR Hs.
    assert (R1 : forall a st0, FlashClass.erase_row p f a st0 = None).
    { intros a st0. unfold FlashClass.erase_row.
      change (ROW_SIZE f) with (row_size p). rewrite HR. reflexivity. }
    assert (RS : forall fuel, FlashClass.erase_rows p f fuel ptr size st = None).
    { intros fuel. destruct fuel as [|fuel]; cbn [FlashClass.erase_rows];
        change (ROW_SIZE f) with (row_size p); rewrite HR;
        rewrite !Z.gtb_ltb; destruct (Z.ltb_spec 0 size); try lia.
      - reflexivity.
      - unfold bind. rewrite R1. reflexivity. }
    split; [apply R1|]. split; [exact RS|].
    intros B. unfold FlashClass.erase. rewrite B. cbn [negb]. apply RS.
Qed.

Lemma erase_zero_row_size_witness :
  0 < 100 /\
  FlashClass.erase {| target := SAMD51; PSZ := 0; NVMP := 7 |}
    (FlashClass_new {| target := SAMD51; PSZ := 0; NVMP := 7 |} 0 0)
    0 100 st_erased = None.
Proof.
  split; [lia|].
  pose (hw := {| target := SAMD51; PSZ := 0; NVMP := 7 |}).
  destruct (erase_zero_row_size hw 0 0 0 100 st_erased) as (_ & Z0 & U).
  apply U; [apply Z0; split; [reflexivity | vm_compute; reflexivity] | lia |
            reflexivity].
Defined.
